(** * sketchToPerlin.js: a shallow embedding of the p5.js sketch

    The sketch keeps a handful of global variables (noise scales, grid gap,
    one noise offset per board, the captured stroke) and reacts to p5 events.
    Every call into p5 (drawing primitives, [random], [noise]) is recorded as
    an event, so that what the sketch asks of its host can be stated and
    proved.  JavaScript numbers are kept abstract behind the [Number] class
    and instantiated twice: by IEEE binary64 floats (what the sketch really
    computes with) and by exact rationals (the arithmetic the specification
    reasons in). *)

From Stdlib Require Import String ZArith QArith Qround Lqa Lia Bool List.
From Stdlib Require Floats.
Import ListNotations.
Close Scope Q_scope.

Set Implicit Arguments.

(** ** JavaScript numbers *)

(** The operations the sketch applies to numbers.  [lit] reads a decimal
    literal of the source; [truthy] is the number's value as a condition
    ([0] and [NaN] are falsy); [nan] is what [undefined] becomes when it is
    used as a number. *)
Class Number : Type := {
  num : Type;
  lit : Q -> num;
  add : num -> num -> num;
  sub : num -> num -> num;
  mul : num -> num -> num;
  div : num -> num -> num;
  ltb : num -> num -> bool;
  leb : num -> num -> bool;
  truthy : num -> bool;
  nan : num
}.

Declare Scope js_scope.
Delimit Scope js_scope with js.
Bind Scope js_scope with num.
Arguments lit {_} _%_Q.
Notation "# q" := (lit q) (at level 1, q at level 0, format "# q") : js_scope.
Infix "+" := add : js_scope.
Infix "-" := sub : js_scope.
Infix "*" := mul : js_scope.
Infix "/" := div : js_scope.
Infix "<?" := ltb : js_scope.
Infix "<=?" := leb : js_scope.
Local Open Scope js_scope.

(** IEEE binary64, the numbers of a JavaScript engine. *)
Module Double.
Import Floats.

Definition of_Z (z : Z) : float :=
  if (z <? 0)%Z then PrimFloat.opp (PrimFloat.of_uint63 (Uint63.of_Z (- z)))
  else PrimFloat.of_uint63 (Uint63.of_Z z).

(** A decimal literal is the correctly rounded quotient of two integers
    that binary64 holds exactly. *)
Definition of_Q (q : Q) : float :=
  PrimFloat.div (of_Z (Qnum q)) (of_Z (Zpos (Qden q))).

Definition is_truthy (v : float) : bool :=
  negb (PrimFloat.eqb v PrimFloat.zero) && negb (PrimFloat.is_nan v).

End Double.

#[export] Instance double : Number := {|
  num := PrimFloat.float;
  lit := Double.of_Q;
  add := PrimFloat.add;
  sub := PrimFloat.sub;
  mul := PrimFloat.mul;
  div := PrimFloat.div;
  ltb := PrimFloat.ltb;
  leb := PrimFloat.leb;
  truthy := Double.is_truthy;
  nan := PrimFloat.nan
|}.

(** Exact rational arithmetic, kept in lowest terms so that equal numbers
    are equal terms.  The rationals have no NaN: [nan] is only read where a
    variable is used before its first assignment, which the sketch never does
    (see [f_loop_defined]). *)
#[export] Instance exact : Number := {|
  num := Q;
  lit := Qred;
  add := fun a b => Qred (a + b)%Q;
  sub := fun a b => Qred (a - b)%Q;
  mul := fun a b => Qred (a * b)%Q;
  div := fun a b => Qred (a / b)%Q;
  ltb := fun a b => negb (Qle_bool b a);
  leb := Qle_bool;
  truthy := fun a => negb (Qeq_bool a 0);
  nan := 0%Q
|}.

(** ** The sketch's state and the host's events *)

Section Model.
Context {N : Number}.

(** [{x: mouseX, y: mouseY}] *)
Record Point : Type := mkPoint { pt_x : num; pt_y : num }.

(** The global variables of the sketch (lines 2-12), and the part of p5's
    state it depends on: the canvas size set by [createCanvas] and how many
    random numbers have been drawn. *)
Record World : Type := mkWorld {
  xScale : num;
  yScale : num;
  gap : num;
  offsetR : num;
  offsetA : num;
  drawing : list Point;
  lastClickTime : num;
  doubleClickThreshold : num;
  width : num;
  height : num;
  randomCalls : nat
}.

Definition set_offsetR (v : num) (w : World) : World :=
  mkWorld (xScale w) (yScale w) (gap w) v (offsetA w) (drawing w)
          (lastClickTime w) (doubleClickThreshold w) (width w) (height w) (randomCalls w).

Definition set_offsetA (v : num) (w : World) : World :=
  mkWorld (xScale w) (yScale w) (gap w) (offsetR w) v (drawing w)
          (lastClickTime w) (doubleClickThreshold w) (width w) (height w) (randomCalls w).

Definition set_drawing (d : list Point) (w : World) : World :=
  mkWorld (xScale w) (yScale w) (gap w) (offsetR w) (offsetA w) d
          (lastClickTime w) (doubleClickThreshold w) (width w) (height w) (randomCalls w).

Definition set_lastClickTime (t : num) (w : World) : World :=
  mkWorld (xScale w) (yScale w) (gap w) (offsetR w) (offsetA w) (drawing w)
          t (doubleClickThreshold w) (width w) (height w) (randomCalls w).

Definition set_canvas (cw ch : num) (w : World) : World :=
  mkWorld (xScale w) (yScale w) (gap w) (offsetR w) (offsetA w) (drawing w)
          (lastClickTime w) (doubleClickThreshold w) cw ch (randomCalls w).

Definition next_random (w : World) : World :=
  mkWorld (xScale w) (yScale w) (gap w) (offsetR w) (offsetA w) (drawing w)
          (lastClickTime w) (doubleClickThreshold w) (width w) (height w) (S (randomCalls w)).

(** One constructor per p5 function the sketch calls. *)
Inductive Call : Type :=
| CreateCanvas (w h : num)
| Background (c : num)
| NoStroke
| NoFill
| Fill (c : num)
| Stroke (c : num)
| StrokeWeight (n : num)
| TextSize (n : num)
| Text (s : string) (x y : num)
| Rect (x y w h : num)
| Circle (x y d : num)
| Line (x1 y1 x2 y2 : num)
| Random (max : num)
| Noise (a b : num).

(** What p5 hands to the handlers: the pointer, and the clock. *)
Record Pointer : Type := mkPointer {
  mouseIsPressed : bool;
  mouseX : num;
  mouseY : num;
  pmouseX : num;
  pmouseY : num
}.

(** ** Computations

    A computation runs from a world and yields a result, the world it
    leaves, and the calls it made, in order.  The result is [None] when a
    [for] loop was still running after its iteration budget: the world and
    the calls are then those reached so far. *)
Definition M (A : Type) : Type := World -> option A * World * list Call.

Definition ret {A} (a : A) : M A := fun w => (Some a, w, []).

Definition bind {A B} (m : M A) (k : A -> M B) : M B :=
  fun w =>
    match m w with
    | (Some a, w1, o1) => let '(r, w2, o2) := k a w1 in (r, w2, o1 ++ o2)
    | (None, w1, o1) => (None, w1, o1)
    end.

Definition gets {A} (g : World -> A) : M A := fun w => (Some (g w), w, []).
Definition modify (g : World -> World) : M unit := fun w => (Some tt, g w, []).
Definition call (c : Call) : M unit := fun w => (Some tt, w, [c]).
Definition timeout {A} : M A := fun w => (None, w, []).

Definition result {A} (r : option A * World * list Call) : option A := fst (fst r).
Definition world_of {A} (r : option A * World * list Call) : World := snd (fst r).
Definition calls {A} (r : option A * World * list Call) : list Call := snd r.

End Model.

Notation "x <- m ;; k" := (bind m (fun x => k))
  (at level 61, m at next level, right associativity) : js_scope.
Notation "m ;; k" := (bind m (fun _ => k))
  (at level 61, right associativity) : js_scope.

(** ** The sketch *)

Section Sketch.
Context {N : Number}.

(** p5's coherent noise, a fixed function for the lifetime of the page. *)
Variable perlin : num -> num -> num.
(** The successive values of the host's uniform generator. *)
Variable entropy : nat -> num.

(** *** p5 functions *)

Definition createCanvas (cw ch : num) : M unit :=
  modify (set_canvas cw ch) ;; call (CreateCanvas cw ch).
Definition background (c : num) : M unit := call (Background c).
Definition noStroke : M unit := call NoStroke.
Definition noFill : M unit := call NoFill.
Definition fill (c : num) : M unit := call (Fill c).
Definition stroke (c : num) : M unit := call (Stroke c).
Definition strokeWeight (n : num) : M unit := call (StrokeWeight n).
Definition textSize (n : num) : M unit := call (TextSize n).
Definition text (s : string) (x y : num) : M unit := call (Text s x y).
Definition rect (x y w h : num) : M unit := call (Rect x y w h).
Definition circle (x y d : num) : M unit := call (Circle x y d).
Definition line (x1 y1 x2 y2 : num) : M unit := call (Line x1 y1 x2 y2).

(** [noise(a, b)] *)
Definition noise (a b : num) : M num :=
  fun w => (Some (perlin a b), w, [Noise a b]).

(** [random(max)]: the next value of the generator, scaled. *)
Definition random (max : num) : M num :=
  fun w => (Some (entropy (randomCalls w) * max), next_random w, [Random max]).

(** [map(n, start1, stop1, start2, stop2)] as p5 defines it. *)
Definition p5map (n start1 stop1 start2 stop2 : num) : num :=
  (n - start1) / (stop1 - start1) * (stop2 - start2) + start2.

(** *** JavaScript idioms *)

(** A [let] variable that may still be [undefined]. *)
Definition value : Type := option num.

Definition to_number (v : value) : num :=
  match v with Some n => n | None => nan end.

Definition to_boolean (v : value) : bool :=
  match v with Some n => truthy n | None => false end.

(** [for (let v = init; v < bound; v += step) body], with [bound] and
    [step] read from the globals at every turn and [s] the variables the
    body assigns.  [fuel] bounds the number of turns. *)
Fixpoint for_lt {S : Type} (fuel : nat) (bound step : World -> num)
    (body : num -> S -> M S) (v : num) (s : S) : M S :=
  match fuel with
  | O => timeout
  | Datatypes.S k =>
      b <- gets bound ;;
      if v <? b then
        s' <- body v s ;;
        d <- gets step ;;
        for_lt k bound step body (v + d) s'
      else ret s
  end.

(** *** Lines 64-88 *)
Definition dotGridR (fuel : nat) : M unit :=
  noStroke ;;
  fill #0 ;;
  fill #255 ;;
  rect #512 #0 #512 #512 ;;
  fill #0 ;;
  r <- random #1000 ;;
  modify (set_offsetR r) ;;
  g <- gets gap ;;
  for_lt fuel (fun _ => #1024) gap (fun x _ =>
    g <- gets gap ;;
    for_lt fuel (fun w => height w / #3) gap (fun y _ =>
      o <- gets offsetR ;;
      sx <- gets xScale ;;
      sy <- gets yScale ;;
      noiseValue <- noise ((x + o) * sx) ((y + o) * sy) ;;
      g <- gets gap ;;
      let diameter := noiseValue * g in
      circle x y diameter)
    (g / #2) tt)
  (#512 + g / #2) tt.

(** *** Lines 90-114 *)
Definition dotGridA (fuel : nat) : M unit :=
  noStroke ;;
  fill #0 ;;
  fill #255 ;;
  rect #512 #512 #512 #512 ;;
  fill #0 ;;
  r <- random #1000 ;;
  modify (set_offsetA r) ;;
  g <- gets gap ;;
  for_lt fuel (fun _ => #1024) gap (fun x _ =>
    g <- gets gap ;;
    for_lt fuel (fun _ => #1024) gap (fun y _ =>
      o <- gets offsetA ;;
      sx <- gets xScale ;;
      sy <- gets yScale ;;
      noiseValue <- noise ((x + o) * sx) ((y + o) * sy) ;;
      g <- gets gap ;;
      let diameter := noiseValue * g in
      circle x y diameter)
    (#512 + g / #2) tt)
  (#512 + g / #2) tt.

(** *** Lines 116-142.  [prevX] and [prevY] live across both loops. *)
Definition translateAToB (fuel : nat) : M unit :=
  fill #255 ;;
  rect #0 #1024 #512 #512 ;;
  g <- gets gap ;;
  _ <- for_lt fuel (fun _ => #1024) gap (fun x prev =>
    g <- gets gap ;;
    for_lt fuel (fun _ => #1024) gap (fun y prev =>
      let '(prevX, prevY) := prev in
      o <- gets offsetA ;;
      sx <- gets xScale ;;
      sy <- gets yScale ;;
      noiseValue <- noise ((x + o) * sx) ((y + o) * sy) ;;
      let newX := x + p5map noiseValue #0 #1 #(-10) #10 in
      let newY := y + p5map noiseValue #0 #1 #(-10) #10 in
      (if to_boolean prevX && to_boolean prevY then
         stroke #0 ;;
         strokeWeight #10 ;;
         line (to_number prevX - #512) (to_number prevY + #512)
              (newX - #512) (newY + #512)
       else ret tt) ;;
      ret (Some newX, Some newY))
    (#512 + g / #2) prev)
  (#512 + g / #2) (None, None) ;;
  ret tt.

(** *** Lines 144-175.  [pts] is [drawing] from index [i] on. *)
Fixpoint f_loop (i : nat) (pts : list Point) (prevX prevY : value) : M unit :=
  match pts with
  | [] => ret tt
  | pt :: rest =>
      o <- gets offsetR ;;
      sx <- gets xScale ;;
      sy <- gets yScale ;;
      noiseValue <- noise ((pt_x pt + o) * sx) ((pt_y pt + o) * sy) ;;
      let newX := pt_x pt + p5map noiseValue #0 #1 #(-10) #10 in
      let newY := pt_y pt + p5map noiseValue #0 #1 #(-10) #10 in
      (if (0 <? i)%nat then
         stroke #0 ;;
         strokeWeight #10 ;;
         line (to_number prevX) (to_number prevY + #512) newX (newY + #512)
       else ret tt) ;;
      f_loop (S i) rest (Some newX) (Some newY)
  end.

Definition f : M unit :=
  fill #255 ;;
  rect #0 #512 #512 #512 ;;
  fill #0 ;;
  pts <- gets drawing ;;
  f_loop 0 pts None None.

(** *** Lines 177-226 *)
Definition drawBoard : M unit :=
  stroke #0 ;; strokeWeight #2 ;; noFill ;;
  rect #0 #0 #512 #512 ;;
  fill #255 ;; rect #10 #10 #40 #40 ;;
  fill #0 ;; textSize #32 ;; text "L" #20 #50 ;;
  noFill ;;
  rect #512 #0 #512 #512 ;;
  fill #255 ;; rect #522 #10 #40 #40 ;;
  fill #0 ;; textSize #32 ;; text "R" #532 #50 ;;
  noFill ;;
  rect #0 #512 #512 #512 ;;
  fill #255 ;; rect #10 #522 #40 #40 ;;
  fill #0 ;; textSize #32 ;; text "P" #20 #562 ;;
  noFill ;;
  rect #512 #512 #512 #512 ;;
  fill #255 ;; rect #522 #522 #40 #40 ;;
  fill #0 ;; textSize #32 ;; text "A" #532 #562 ;;
  noFill ;;
  rect #0 #1024 #512 #512 ;;
  fill #255 ;; rect #10 #1034 #40 #40 ;;
  fill #0 ;; textSize #32 ;; text "B" #20 #1074.

(** *** Lines 228-239 *)
Definition resetLeftSide : M unit :=
  noStroke ;;
  fill #255 ;;
  rect #0 #0 #512 #512 ;;
  drawBoard ;;
  modify (set_drawing []).

(** *** Lines 14-26 *)
Definition setup (fuel : nat) : M unit :=
  createCanvas #1024 #1536 ;;
  background #255 ;;
  drawBoard ;;
  dotGridR fuel ;;
  dotGridA fuel.

(** *** Lines 28-38.  [drawing.push] appends at the end. *)
Definition draw (p : Pointer) : M unit :=
  if mouseIsPressed p && (mouseX p <=? #512) && (mouseY p <=? #512) then
    stroke #0 ;;
    strokeWeight #10 ;;
    line (pmouseX p) (pmouseY p) (mouseX p) (mouseY p) ;;
    d <- gets drawing ;;
    modify (set_drawing (d ++ [mkPoint (mouseX p) (mouseY p)]))
  else ret tt.

(** *** Lines 40-53 *)
Definition mouseReleased (fuel : nat) : M unit :=
  dotGridR fuel ;;
  f ;;
  dotGridA fuel ;;
  translateAToB fuel.

(** *** Lines 55-62.  [millis] is the clock reading [millis()] returns. *)
Definition mousePressed (millis : num) (p : Pointer) : M unit :=
  let currentTime := millis in
  last <- gets lastClickTime ;;
  threshold <- gets doubleClickThreshold ;;
  (if (currentTime - last <? threshold) && (mouseX p <=? #512) && (mouseY p <=? #512)
   then resetLeftSide else ret tt) ;;
  modify (set_lastClickTime currentTime).

(** *** Lines 1-12: the globals when the page loads.  p5 starts with a
    100 by 100 canvas until [createCanvas] is called. *)
Definition initial : World := {|
  xScale := #0.015;
  yScale := #0.02;
  gap := #20;
  offsetR := #100;
  offsetA := #200;
  drawing := [];
  lastClickTime := #0;
  doubleClickThreshold := #300;
  width := #100;
  height := #100;
  randomCalls := 0
|}.

(** *** The session: p5 calls [setup] once, then one handler per event. *)
Inductive Event : Type :=
| Frame (p : Pointer)
| Press (millis : num) (p : Pointer)
| Release.

Definition handle (fuel : nat) (e : Event) : M unit :=
  match e with
  | Frame p => draw p
  | Press t p => mousePressed t p
  | Release => mouseReleased fuel
  end.

Fixpoint session (fuel : nat) (es : list Event) : M unit :=
  match es with
  | [] => ret tt
  | e :: es' => handle fuel e ;; session fuel es'
  end.

Definition run_page (fuel : nat) (es : list Event) : option unit * World * list Call :=
  (setup fuel ;; session fuel es) initial.

End Sketch.

(** ** What a run shows *)

Section Observations.
Context {N : Number}.
Variable perlin : num -> num -> num.

(** The arguments of the [noise] calls, the circles, the segments and the
    [random] calls of a run, each in the order made. *)
Definition noise_args (cs : list Call) : list (num * num) :=
  flat_map (fun c => match c with Noise a b => [(a, b)] | _ => [] end) cs.

Definition circles_of (cs : list Call) : list (num * num * num) :=
  flat_map (fun c => match c with Circle x y d => [(x, y, d)] | _ => [] end) cs.

Definition lines_of (cs : list Call) : list (Point * Point) :=
  flat_map (fun c => match c with
                     | Line x1 y1 x2 y2 => [(mkPoint x1 y1, mkPoint x2 y2)]
                     | _ => []
                     end) cs.

Definition randoms_of (cs : list Call) : list num :=
  flat_map (fun c => match c with Random m => [m] | _ => [] end) cs.

(** The values [v] takes in [for (v = init; v < bound; v += step)], when
    the loop ends within [fuel] turns. *)
Fixpoint range_lt (fuel : nat) (v bound step : num) : option (list num) :=
  match fuel with
  | O => None
  | S k =>
      if v <? bound then option_map (cons v) (range_lt k (v + step) bound step)
      else Some []
  end.

(** The calls of a loop whose body, at turn [x] with variables [s], makes
    the calls [ev x s] and leaves the variables [nxt x s]. *)
Fixpoint loop_calls {X S : Type} (nxt : X -> S -> S) (ev : X -> S -> list Call)
    (l : list X) (s : S) : list Call :=
  match l with
  | [] => []
  | x :: l' => ev x s ++ loop_calls nxt ev l' (nxt x s)
  end.

(** The cells of a grid, column by column. *)
Definition cells (cols rows : list num) : list Point :=
  flat_map (fun x => map (mkPoint x) rows) cols.

(** Where the sketch samples the noise for the point [(x, y)]. *)
Definition sample_at (offset scaleX scaleY x y : num) : num * num :=
  ((x + offset) * scaleX, (y + offset) * scaleY).

Definition sample (offset scaleX scaleY x y : num) : num :=
  perlin ((x + offset) * scaleX) ((y + offset) * scaleY).

(** One dot of a grid (lines 81-85 and 107-111). *)
Definition dot_calls (offset scaleX scaleY step : num) (c : Point) : list Call :=
  [ Noise ((pt_x c + offset) * scaleX) ((pt_y c + offset) * scaleY);
    Circle (pt_x c) (pt_y c) (sample offset scaleX scaleY (pt_x c) (pt_y c) * step) ].

(** The point a sample moves [p] to (lines 158-162 and 127-129). *)
Definition displace (offset scaleX scaleY : num) (p : Point) : Point :=
  let n := sample offset scaleX scaleY (pt_x p) (pt_y p) in
  mkPoint (pt_x p + p5map n #0 #1 #(-10) #10) (pt_y p + p5map n #0 #1 #(-10) #10).

(** The specification's [transformStroke], in its words: every point is
    moved by one displacement, the same on both axes. *)
Definition transformStroke (points : list Point) (offset scaleX scaleY : num)
  : list Point :=
  map (fun p =>
         let n := perlin ((pt_x p + offset) * scaleX) ((pt_y p + offset) * scaleY) in
         let displacement := p5map n #0 #1 #(-10) #10 in
         mkPoint (pt_x p + displacement) (pt_y p + displacement)) points.

(** The segments joining consecutive points. *)
Fixpoint segments (l : list Point) : list (Point * Point) :=
  match l with
  | p :: (q :: _) as l' => (p, q) :: segments l'
  | _ => []
  end.

(** Board P lies below board L: [line(prevX, prevY + 512, newX, newY + 512)]. *)
Definition onto_P (p : Point) : Point := mkPoint (pt_x p) (pt_y p + #512).

(** The calls of [f]'s loop from the point after [prev] on. *)
Fixpoint stroke_calls (offset scaleX scaleY : num) (prev : option Point)
    (pts : list Point) : list Call :=
  match pts with
  | [] => []
  | p :: rest =>
      let q := displace offset scaleX scaleY p in
      Noise ((pt_x p + offset) * scaleX) ((pt_y p + offset) * scaleY)
      :: match prev with
         | Some q0 => [ Stroke #0; StrokeWeight #10;
                        Line (pt_x q0) (pt_y q0 + #512) (pt_x q) (pt_y q + #512) ]
         | None => []
         end
      ++ stroke_calls offset scaleX scaleY (Some q) rest
  end.

(** One turn of [translateAToB]'s inner loop at the cell [c]. *)
Definition translate_next (offset scaleX scaleY : num) (c : Point)
    (prev : value * value) : value * value :=
  let q := displace offset scaleX scaleY c in (Some (pt_x q), Some (pt_y q)).

Definition translate_turn (offset scaleX scaleY : num) (c : Point)
    (prev : value * value) : list Call :=
  let q := displace offset scaleX scaleY c in
  Noise ((pt_x c + offset) * scaleX) ((pt_y c + offset) * scaleY)
  :: (if to_boolean (fst prev) && to_boolean (snd prev) then
        [ Stroke #0; StrokeWeight #10;
          Line (to_number (fst prev) - #512) (to_number (snd prev) + #512)
               (pt_x q - #512) (pt_y q + #512) ]
      else []).

Definition translate_calls (offset scaleX scaleY : num) (cs : list Point) : list Call :=
  loop_calls (translate_next offset scaleX scaleY) (translate_turn offset scaleX scaleY)
             cs (None, None).

(** The fixed calls that open each operation. *)
Definition clear_R : list Call :=
  [NoStroke; Fill #0; Fill #255; Rect #512 #0 #512 #512; Fill #0].
Definition clear_A : list Call :=
  [NoStroke; Fill #0; Fill #255; Rect #512 #512 #512 #512; Fill #0].
Definition clear_B : list Call := [Fill #255; Rect #0 #1024 #512 #512].
Definition clear_P : list Call := [Fill #255; Rect #0 #512 #512 #512; Fill #0].

(** A rectangular sampling grid, and its sample centers as the loops of
    lines 78-79 and 104-105 enumerate them: from the origin plus half a step,
    by whole steps, while below the origin plus the extent. *)
Record GridSpec : Type := mkGrid {
  originX : num;
  originY : num;
  extentX : num;
  extentY : num;
  step : num
}.

Definition centers (fuel : nat) (g : GridSpec) : option (list Point) :=
  match range_lt fuel (originX g + step g / #2) (originX g + extentX g) (step g),
        range_lt fuel (originY g + step g / #2) (originY g + extentY g) (step g) with
  | Some cols, Some rows => Some (cells cols rows)
  | _, _ => None
  end.

(** [first], [first + 20], ... ([n] values). *)
Definition ticks (first : Z) (n : nat) : list num :=
  map (fun k => lit (inject_Z (first + 20 * Z.of_nat k))) (seq 0 n).

(** The calls of [drawBoard]. *)
Definition board_calls : list Call :=
  [ Stroke #0; StrokeWeight #2; NoFill;
    Rect #0 #0 #512 #512;
    Fill #255; Rect #10 #10 #40 #40;
    Fill #0; TextSize #32; Text "L" #20 #50;
    NoFill;
    Rect #512 #0 #512 #512;
    Fill #255; Rect #522 #10 #40 #40;
    Fill #0; TextSize #32; Text "R" #532 #50;
    NoFill;
    Rect #0 #512 #512 #512;
    Fill #255; Rect #10 #522 #40 #40;
    Fill #0; TextSize #32; Text "P" #20 #562;
    NoFill;
    Rect #512 #512 #512 #512;
    Fill #255; Rect #522 #522 #40 #40;
    Fill #0; TextSize #32; Text "A" #532 #562;
    NoFill;
    Rect #0 #1024 #512 #512;
    Fill #255; Rect #10 #1034 #40 #40;
    Fill #0; TextSize #32; Text "B" #20 #1074 ].

(** A call a dot grid may make with grid step [step]: a sample, or a circle
    whose diameter is a sample times the step. *)
Definition dot_call (step : num) (c : Call) : Prop :=
  match c with
  | Noise _ _ => True
  | Circle _ _ d => exists a b, d = perlin a b * step
  | _ => False
  end.

Definition no_random (c : Call) : Prop :=
  match c with Random _ => False | _ => True end.

(** The globals the loops depend on, as the sketch sets them. *)
Definition tuned (w : World) : Prop := gap w = #20 /\ height w = #1536.



(** The grid of the specification's scenario, and those of boards R and A. *)
Definition scenario_grid : GridSpec := mkGrid #0 #0 #40 #40 #20.
Definition board_R : GridSpec := mkGrid #512 #0 #512 #512 #20.
Definition board_A : GridSpec := mkGrid #512 #512 #512 #512 #20.

(** *** A concrete page to run the sketch on: a smooth bump for the noise,
    1/2, 1/3, ... for the generator, and the two-point stroke of the
    specification's scenario on the canvas [setup] creates. *)
Definition bump (a b : num) : num := a * a / (#1 + a * a + b * b).

Definition harmonic (k : nat) : num := lit (Qmake 1 (Pos.of_succ_nat (S k))).

Definition studio : World :=
  set_drawing [mkPoint #100 #100; mkPoint #110 #100] (set_canvas #1024 #1536 initial).

(** Two drags on board L with a release after each, the button up in the
    frame before the second release. *)
Definition two_drags : list Event :=
  [ Frame (mkPointer true #120 #110 #110 #100); Release;
    Frame (mkPointer true #130 #120 #120 #110);
    Frame (mkPointer false #140 #130 #130 #120); Release ].

(** A pointer at rest at [(x, y)], button down. *)
Definition resting (x y : num) : Pointer := mkPointer true x y x y.

End Observations.

(** ** Gestures and boards *)

Section Gestures.
Context {N : Number}.

(** The condition of line 30: the button is down and the pointer is not
    right of, nor below, board L. *)
Definition captured (p : Pointer) : bool :=
  mouseIsPressed p && (mouseX p <=? #512) && (mouseY p <=? #512).

(** The condition of line 58, for a press at time [t] after one at [last]. *)
Definition double_click (threshold last t : num) (p : Pointer) : bool :=
  (t - last <? threshold) && (mouseX p <=? #512) && (mouseY p <=? #512).

(** [{x: mouseX, y: mouseY}] *)
Definition point_of (p : Pointer) : Point := mkPoint (mouseX p) (mouseY p).

(** The calls of one captured frame (lines 31-33). *)
Definition trail (p : Pointer) : list Call :=
  [Stroke #0; StrokeWeight #10; Line (pmouseX p) (pmouseY p) (mouseX p) (mouseY p)].

Definition is_press (e : Event) : bool :=
  match e with Press _ _ => true | _ => false end.



(** The points the frames of [es] capture, in order. *)
Definition captures (es : list Event) : list Point :=
  flat_map (fun e => match e with
                     | Frame p => if captured p then [point_of p] else []
                     | _ => []
                     end) es.

(** Two worlds that differ at most in the offsets and in the number of
    random draws. *)
Definition reseeded (w w' : World) : Prop :=
  xScale w' = xScale w /\ yScale w' = yScale w /\ gap w' = gap w /\
  drawing w' = drawing w /\ lastClickTime w' = lastClickTime w /\
  doubleClickThreshold w' = doubleClickThreshold w /\
  width w' = width w /\ height w' = height w.

(** Lines 2-6 and 12 with the canvas of line 15. *)
Definition configured (w : World) : Prop :=
  xScale w = #0.015 /\ yScale w = #0.02 /\ gap w = #20 /\
  doubleClickThreshold w = #300 /\ width w = #1024 /\ height w = #1536.



End Gestures.

(** ** The pen

    p5 keeps a current fill, a current stroke and a stroke weight; [fill],
    [noFill], [stroke], [noStroke] and [strokeWeight] set them, and a shape
    is drawn with the ones current at its call. *)

Section Pen.
Context {N : Number}.

Record Style : Type := mkStyle {
  fillColor : option num;     (* [None] after [noFill()] *)
  strokeColor : option num;   (* [None] after [noStroke()] *)
  weight : num
}.

Definition restyle (st : Style) (c : Call) : Style :=
  match c with
  | Fill v => mkStyle (Some v) (strokeColor st) (weight st)
  | NoFill => mkStyle None (strokeColor st) (weight st)
  | Stroke v => mkStyle (fillColor st) (Some v) (weight st)
  | NoStroke => mkStyle (fillColor st) None (weight st)
  | StrokeWeight n => mkStyle (fillColor st) (strokeColor st) n
  | _ => st
  end.

Definition pen_after (st : Style) (cs : list Call) : Style := fold_left restyle cs st.

Definition is_shape (c : Call) : bool :=
  match c with
  | Rect _ _ _ _ | Circle _ _ _ | Line _ _ _ _ | Text _ _ _ => true
  | _ => false
  end.

(** The shapes of a run, each with the pen it is drawn with. *)
Fixpoint drawn (st : Style) (cs : list Call) : list (Style * Call) :=
  match cs with
  | [] => []
  | c :: cs' => (if is_shape c then [(st, c)] else []) ++ drawn (restyle st c) cs'
  end.

(** The four ways the sketch means its shapes: a dot is black without
    outline; a segment is black and 10 wide; a label is black; a rectangle
    is a board's border (black, 2 wide, hollow), the box behind a label
    (white, with such a border) or a cleared board (white, no outline). *)
Definition in_style (sc : Style * Call) : Prop :=
  let st := fst sc in
  match snd sc with
  | Circle _ _ _ => fillColor st = Some #0 /\ strokeColor st = None
  | Line _ _ _ _ => strokeColor st = Some #0 /\ weight st = #10
  | Text _ _ _ => fillColor st = Some #0 /\ strokeColor st = Some #0 /\ weight st = #2
  | Rect _ _ _ _ =>
      (fillColor st = None /\ strokeColor st = Some #0 /\ weight st = #2)
      \/ (fillColor st = Some #255 /\ strokeColor st = Some #0 /\ weight st = #2)
      \/ (fillColor st = Some #255 /\ strokeColor st = None)
  | _ => True
  end.

(** From a pen in [P], the shapes of [cs] are in style and the pen ends in
    [Q]. *)
Definition styled (P : Style -> Prop) (cs : list Call) (Q : Style -> Prop) : Prop :=
  forall st, P st -> Forall in_style (drawn st cs) /\ Q (pen_after st cs).

Definition any_pen (st : Style) : Prop := True.
Definition no_outline (st : Style) : Prop := strokeColor st = None.
Definition dot_pen (st : Style) : Prop := fillColor st = Some #0 /\ strokeColor st = None.

End Pen.



(** ** The draft: hand_gestures_to_pattern/drafts/sketchToPerlin.js

    The draft is the same sketch with its sizes held in six more globals
    (lines 2-7), which no function assigns: they are constants here.  The
    other globals (lines 10-20) are those of [World]. *)

Module Draft.
Section Sketch.
Context {N : Number}.
Variable perlin : num -> num -> num.
Variable entropy : nat -> num.

Definition canvasWidth : num := #1024.
Definition canvasHeight : num := #1536.
Definition sectionSize : num := #512.
Definition labelSize : num := #32.
Definition textPadding : num := #10.
Definition rectPadding : num := #40.

(** *** Lines 73-96 *)
Definition dotGridR (fuel : nat) : M unit :=
  noStroke ;;
  fill #0 ;;
  fill #255 ;;
  rect sectionSize #0 sectionSize sectionSize ;;
  fill #0 ;;
  r <- random entropy #1000 ;;
  modify (set_offsetR r) ;;
  g <- gets gap ;;
  for_lt fuel (fun _ => sectionSize * #2) gap (fun x _ =>
    g <- gets gap ;;
    for_lt fuel (fun _ => sectionSize) gap (fun y _ =>
      o <- gets offsetR ;;
      sx <- gets xScale ;;
      sy <- gets yScale ;;
      noiseValue <- noise perlin ((x + o) * sx) ((y + o) * sy) ;;
      g <- gets gap ;;
      let diameter := noiseValue * g in
      circle x y diameter)
    (g / #2) tt)
  (sectionSize + g / #2) tt.

(** *** Lines 99-122 *)
Definition dotGridA (fuel : nat) : M unit :=
  noStroke ;;
  fill #0 ;;
  fill #255 ;;
  rect sectionSize sectionSize sectionSize sectionSize ;;
  fill #0 ;;
  r <- random entropy #1000 ;;
  modify (set_offsetA r) ;;
  g <- gets gap ;;
  for_lt fuel (fun _ => sectionSize * #2) gap (fun x _ =>
    g <- gets gap ;;
    for_lt fuel (fun _ => sectionSize * #2) gap (fun y _ =>
      o <- gets offsetA ;;
      sx <- gets xScale ;;
      sy <- gets yScale ;;
      noiseValue <- noise perlin ((x + o) * sx) ((y + o) * sy) ;;
      g <- gets gap ;;
      let diameter := noiseValue * g in
      circle x y diameter)
    (sectionSize + g / #2) tt)
  (sectionSize + g / #2) tt.

(** *** Lines 125-150 *)
Definition translateAToB (fuel : nat) : M unit :=
  fill #255 ;;
  rect #0 (sectionSize * #2) sectionSize sectionSize ;;
  g <- gets gap ;;
  _ <- for_lt fuel (fun _ => sectionSize * #2) gap (fun x prev =>
    g <- gets gap ;;
    for_lt fuel (fun _ => sectionSize * #2) gap (fun y prev =>
      let '(prevX, prevY) := prev in
      o <- gets offsetA ;;
      sx <- gets xScale ;;
      sy <- gets yScale ;;
      noiseValue <- noise perlin ((x + o) * sx) ((y + o) * sy) ;;
      let newX := x + p5map noiseValue #0 #1 #(-10) #10 in
      let newY := y + p5map noiseValue #0 #1 #(-10) #10 in
      (if to_boolean prevX && to_boolean prevY then
         stroke #0 ;;
         strokeWeight #10 ;;
         line (to_number prevX - sectionSize) (to_number prevY + sectionSize)
              (newX - sectionSize) (newY + sectionSize)
       else ret tt) ;;
      ret (Some newX, Some newY))
    (sectionSize + g / #2) prev)
  (sectionSize + g / #2) (None, None) ;;
  ret tt.

(** *** Lines 153-183 *)
Fixpoint f_loop (i : nat) (pts : list Point) (prevX prevY : value) : M unit :=
  match pts with
  | [] => ret tt
  | pt :: rest =>
      o <- gets offsetR ;;
      sx <- gets xScale ;;
      sy <- gets yScale ;;
      noiseValue <- noise perlin ((pt_x pt + o) * sx) ((pt_y pt + o) * sy) ;;
      let newX := pt_x pt + p5map noiseValue #0 #1 #(-10) #10 in
      let newY := pt_y pt + p5map noiseValue #0 #1 #(-10) #10 in
      (if (0 <? i)%nat then
         stroke #0 ;;
         strokeWeight #10 ;;
         line (to_number prevX) (to_number prevY + sectionSize) newX (newY + sectionSize)
       else ret tt) ;;
      f_loop (S i) rest (Some newX) (Some newY)
  end.

Definition f : M unit :=
  fill #255 ;;
  rect #0 sectionSize sectionSize sectionSize ;;
  fill #0 ;;
  pts <- gets drawing ;;
  f_loop 0 pts None None.

(** *** Lines 186-236 *)
Definition drawBoard : M unit :=
  stroke #0 ;; strokeWeight #2 ;; noFill ;;
  rect #0 #0 sectionSize sectionSize ;;
  fill #255 ;; rect textPadding textPadding rectPadding rectPadding ;;
  fill #0 ;; textSize labelSize ;;
  text "L" (textPadding * #2) (textPadding * #4) ;;
  noFill ;;
  rect sectionSize #0 sectionSize sectionSize ;;
  fill #255 ;; rect (sectionSize + textPadding) textPadding rectPadding rectPadding ;;
  fill #0 ;; textSize labelSize ;;
  text "R" (sectionSize + textPadding * #2) (textPadding * #4) ;;
  noFill ;;
  rect #0 sectionSize sectionSize sectionSize ;;
  fill #255 ;; rect textPadding (sectionSize + textPadding) rectPadding rectPadding ;;
  fill #0 ;; textSize labelSize ;;
  text "P" (textPadding * #2) (sectionSize + textPadding * #4) ;;
  noFill ;;
  rect sectionSize sectionSize sectionSize sectionSize ;;
  fill #255 ;;
  rect (sectionSize + textPadding) (sectionSize + textPadding) rectPadding rectPadding ;;
  fill #0 ;; textSize labelSize ;;
  text "A" (sectionSize + textPadding * #2) (sectionSize + textPadding * #4) ;;
  noFill ;;
  rect #0 (sectionSize * #2) sectionSize sectionSize ;;
  fill #255 ;; rect textPadding (sectionSize * #2 + textPadding) rectPadding rectPadding ;;
  fill #0 ;; textSize labelSize ;;
  text "B" (textPadding * #2) (sectionSize * #2 + textPadding * #4).

(** *** Lines 239-249 *)
Definition resetLeftSide : M unit :=
  noStroke ;;
  fill #255 ;;
  rect #0 #0 sectionSize sectionSize ;;
  drawBoard ;;
  modify (set_drawing []).

(** *** Lines 22-34 *)
Definition setup (fuel : nat) : M unit :=
  createCanvas canvasWidth canvasHeight ;;
  background #255 ;;
  drawBoard ;;
  dotGridR fuel ;;
  dotGridA fuel.

(** *** Lines 36-46 *)
Definition draw (p : Pointer) : M unit :=
  if mouseIsPressed p && (mouseX p <=? sectionSize) && (mouseY p <=? sectionSize) then
    stroke #0 ;;
    strokeWeight #10 ;;
    line (pmouseX p) (pmouseY p) (mouseX p) (mouseY p) ;;
    d <- gets drawing ;;
    modify (set_drawing (d ++ [mkPoint (mouseX p) (mouseY p)]))
  else ret tt.

(** *** Lines 49-61 *)
Definition mouseReleased (fuel : nat) : M unit :=
  dotGridR fuel ;;
  f ;;
  dotGridA fuel ;;
  translateAToB fuel.

(** *** Lines 64-70 *)
Definition mousePressed (millis : num) (p : Pointer) : M unit :=
  let currentTime := millis in
  last <- gets lastClickTime ;;
  threshold <- gets doubleClickThreshold ;;
  (if (currentTime - last <? threshold)
      && (mouseX p <=? sectionSize) && (mouseY p <=? sectionSize)
   then resetLeftSide else ret tt) ;;
  modify (set_lastClickTime currentTime).

(** *** Lines 10-20 *)
Definition initial : World := {|
  xScale := #0.015;
  yScale := #0.02;
  gap := #20;
  offsetR := #100;
  offsetA := #200;
  drawing := [];
  lastClickTime := #0;
  doubleClickThreshold := #300;
  width := #100;
  height := #100;
  randomCalls := 0
|}.

Definition handle (fuel : nat) (e : Event) : M unit :=
  match e with
  | Frame p => draw p
  | Press t p => mousePressed t p
  | Release => mouseReleased fuel
  end.

Fixpoint session (fuel : nat) (es : list Event) : M unit :=
  match es with
  | [] => ret tt
  | e :: es' => handle fuel e ;; session fuel es'
  end.

Definition run_page (fuel : nat) (es : list Event) : option unit * World * list Call :=
  (setup fuel ;; session fuel es) initial.

End Sketch.
End Draft.

(** What the draft does to a call of the final sketch: it writes each label
    10 higher ([textPadding * 4] is 40, where the final sketch has 50). *)
Definition raise_label {N : Number} (c : Call) : Call :=
  match c with
  | Text s x y => Text s x (y - #10)
  | _ => c
  end.

Definition raised {N : Number} {A} (r : option A * World * list Call)
  : option A * World * list Call :=
  (result r, world_of r, map raise_label (calls r)).

(** ** The first version: three boards in a row, one offset

    This file has the globals [xScale], [yScale], [gap], [drawing] and a
    single [offset] (lines 2-9), kept here in the field [offsetR] of [World];
    the fields of the globals it does not have are never touched.  It has no
    [mousePressed]: p5 does nothing on a press. *)

Module First.
Section Sketch.
Context {N : Number}.
Variable perlin : num -> num -> num.
Variable entropy : nat -> num.

Definition offset : World -> num := offsetR.
Definition set_offset : num -> World -> World := set_offsetR.

(** *** Lines 44-67 *)
Definition dotGrid (fuel : nat) : M unit :=
  noStroke ;;
  fill #0 ;;
  fill #255 ;;
  rect #512 #0 #512 #512 ;;
  fill #0 ;;
  r <- random entropy #1000 ;;
  modify (set_offset r) ;;
  g <- gets gap ;;
  for_lt fuel (fun _ => #1024) gap (fun x _ =>
    g <- gets gap ;;
    for_lt fuel height gap (fun y _ =>
      o <- gets offset ;;
      sx <- gets xScale ;;
      sy <- gets yScale ;;
      noiseValue <- noise perlin ((x + o) * sx) ((y + o) * sy) ;;
      g <- gets gap ;;
      let diameter := noiseValue * g in
      circle x y diameter)
    (g / #2) tt)
  (#512 + g / #2) tt.

(** *** Lines 70-100 *)
Fixpoint f_loop (i : nat) (pts : list Point) (prevX prevY : value) : M unit :=
  match pts with
  | [] => ret tt
  | pt :: rest =>
      o <- gets offset ;;
      sx <- gets xScale ;;
      sy <- gets yScale ;;
      noiseValue <- noise perlin ((pt_x pt + o) * sx) ((pt_y pt + o) * sy) ;;
      let newX := pt_x pt + p5map noiseValue #0 #1 #(-10) #10 in
      let newY := pt_y pt + p5map noiseValue #0 #1 #(-10) #10 in
      (if (0 <? i)%nat then
         stroke #0 ;;
         strokeWeight #2 ;;
         line (to_number prevX + #1024) (to_number prevY) (newX + #1024) newY
       else ret tt) ;;
      f_loop (S i) rest (Some newX) (Some newY)
  end.

Definition f : M unit :=
  fill #255 ;;
  rect #1024 #0 #512 #512 ;;
  fill #0 ;;
  pts <- gets drawing ;;
  f_loop 0 pts None None.

(** *** Lines 103-127 *)
Definition drawBoard : M unit :=
  stroke #0 ;; strokeWeight #2 ;; noFill ;;
  rect #0 #0 #512 #512 ;;
  fill #0 ;; textSize #32 ;; text "L" #20 #50 ;;
  noFill ;;
  rect #512 #0 #512 #512 ;;
  fill #0 ;; textSize #32 ;; text "R" #532 #50 ;;
  noFill ;;
  rect #1024 #0 #512 #512 ;;
  fill #0 ;; textSize #32 ;; text "P" #1044 #50.

(** *** Lines 130-140.  Nothing calls it. *)
Definition resetLeftSide : M unit :=
  noStroke ;;
  fill #255 ;;
  rect #0 #0 #512 #512 ;;
  drawBoard ;;
  modify (set_drawing []).

(** *** Lines 11-20 *)
Definition setup (fuel : nat) : M unit :=
  createCanvas #1536 #512 ;;
  background #255 ;;
  drawBoard ;;
  dotGrid fuel.

(** *** Lines 22-32 *)
Definition draw (p : Pointer) : M unit :=
  if mouseIsPressed p && (mouseX p <=? #512) then
    stroke #0 ;;
    strokeWeight #2 ;;
    line (pmouseX p) (pmouseY p) (mouseX p) (mouseY p) ;;
    d <- gets drawing ;;
    modify (set_drawing (d ++ [mkPoint (mouseX p) (mouseY p)]))
  else ret tt.

(** *** Lines 35-41 *)
Definition mouseReleased (fuel : nat) : M unit :=
  dotGrid fuel ;;
  f.

Definition handle (fuel : nat) (e : Event) : M unit :=
  match e with
  | Frame p => draw p
  | Press _ _ => ret tt
  | Release => mouseReleased fuel
  end.

Fixpoint session (fuel : nat) (es : list Event) : M unit :=
  match es with
  | [] => ret tt
  | e :: es' => handle fuel e ;; session fuel es'
  end.

(** Lines 2-9 when the page loads.  The fields [offsetA], [lastClickTime]
    and [doubleClickThreshold], of globals this version does not have, are
    never read; they are given the values of the final sketch. *)
Definition initial : World := {|
  xScale := #0.015;
  yScale := #0.02;
  gap := #20;
  offsetR := #100;
  offsetA := #200;
  drawing := [];
  lastClickTime := #0;
  doubleClickThreshold := #300;
  width := #100;
  height := #100;
  randomCalls := 0
|}.

Definition run_page (fuel : nat) (es : list Event) : option unit * World * list Call :=
  (setup fuel ;; session fuel es) initial.

(** The condition of line 24: the pointer's height is not looked at. *)
Definition captured (p : Pointer) : bool := mouseIsPressed p && (mouseX p <=? #512).

(** The calls of one captured frame (lines 25-27). *)
Definition trail (p : Pointer) : list Call :=
  [Stroke #0; StrokeWeight #2; Line (pmouseX p) (pmouseY p) (mouseX p) (mouseY p)].

(** The points the frames of [es] capture, in order. *)
Definition captures (es : list Event) : list Point :=
  flat_map (fun e => match e with
                     | Frame p => if captured p then [point_of p] else []
                     | _ => []
                     end) es.

(** Lines 72-74. *)
Definition clear_P : list Call := [Fill #255; Rect #1024 #0 #512 #512; Fill #0].

(** Board P lies right of board R: [line(prevX + 1024, prevY, newX + 1024, newY)]. *)
Definition onto_P (p : Point) : Point := mkPoint (pt_x p + #1024) (pt_y p).

(** The calls of [f]'s loop from the point after [prev] on. *)
Fixpoint stroke_calls (o sx sy : num) (prev : option Point) (pts : list Point)
  : list Call :=
  match pts with
  | [] => []
  | p :: rest =>
      let q := displace perlin o sx sy p in
      Noise ((pt_x p + o) * sx) ((pt_y p + o) * sy)
      :: match prev with
         | Some q0 => [ Stroke #0; StrokeWeight #2;
                        Line (pt_x q0 + #1024) (pt_y q0) (pt_x q + #1024) (pt_y q) ]
         | None => []
         end
      ++ stroke_calls o sx sy (Some q) rest
  end.

End Sketch.
End First.

(** * Properties *)

(** ** Running computations *)

Section Running.
Context {N : Number}.

Lemma bind_some {A B} (m : M A) (k : A -> M B) w a w1 o1 r w2 o2 :
  m w = (Some a, w1, o1) -> k a w1 = (r, w2, o2) ->
  bind m k w = (r, w2, o1 ++ o2).
Proof. intros Hm Hk. unfold bind. now rewrite Hm, Hk. Qed.

Lemma bind_none {A B} (m : M A) (k : A -> M B) w w1 o1 :
  m w = (None, w1, o1) -> bind m k w = (None, w1, o1).
Proof. intros Hm. unfold bind. now rewrite Hm. Qed.

Lemma bind_gets {A B} (g : World -> A) (k : A -> M B) w :
  bind (gets g) k w = k (g w) w.
Proof. unfold bind, gets. now destruct (k (g w) w) as [[? ?] ?]. Qed.

Lemma bind_call {B} (c : Call) (k : unit -> M B) w :
  bind (call c) k w = (result (k tt w), world_of (k tt w), c :: calls (k tt w)).
Proof. unfold bind, call. now destruct (k tt w) as [[? ?] ?]. Qed.

Lemma bind_result {A B} (m : M A) (k : A -> M B) w a :
  result (m w) = Some a -> result (bind m k w) = result (k a (world_of (m w))).
Proof.
  unfold bind. destruct (m w) as [[r w1] o1]. cbn. intros ->.
  now destruct (k a w1) as [[r2 w2] o2].
Qed.

(** One turn of a loop. *)
Lemma for_lt_turn {S} k (bound step : World -> num) (body : num -> S -> M S) v s w :
  for_lt (Datatypes.S k) bound step body v s w =
    if v <? bound w then
      bind (body v s) (fun s' w' => for_lt k bound step body (v + step w') s' w') w
    else (Some s, w, []).
Proof.
  cbn [for_lt]. unfold bind, gets, ret. cbn.
  destruct (v <? bound w); [|reflexivity].
  destruct (body v s w) as [[[s'|] w'] o]; [|reflexivity].
  destruct (for_lt k bound step body (v + step w') s' w') as [[r w''] o'].
  reflexivity.
Qed.

(** A loop whose body leaves the world alone leaves it alone too; what it
    does depends on the world only through its bound, its step and its body;
    and it makes no call but those of its body. *)
Lemma for_lt_agree {S} (P : Call -> Prop) (bound step : World -> num)
    (body : num -> S -> M S) w1 w2 :
  bound w1 = bound w2 -> step w1 = step w2 ->
  (forall x s, exists r o,
      body x s w1 = (r, w1, o) /\ body x s w2 = (r, w2, o) /\ Forall P o) ->
  forall fuel v s, exists r o,
    for_lt fuel bound step body v s w1 = (r, w1, o) /\
    for_lt fuel bound step body v s w2 = (r, w2, o) /\ Forall P o.
Proof.
  intros Hb Hs Hbody fuel. induction fuel as [|k IH]; intros v s.
  - exists None, []. now repeat split.
  - rewrite !for_lt_turn, <- Hb.
    destruct (v <? bound w1).
    + destruct (Hbody v s) as (r & o & H1 & H2 & HP).
      destruct r as [s'|].
      * destruct (IH (v + step w1) s') as (r' & o' & H1' & H2' & HP').
        exists r', (o ++ o'). repeat split.
        -- now apply bind_some with (1 := H1).
        -- apply bind_some with (1 := H2). now rewrite <- Hs.
        -- apply Forall_app. now split.
      * exists None, o. repeat split; trivial; now apply bind_none.
    + exists (Some s), []. now repeat split.
Qed.

(** When the loop variable runs through [l] within the budget, the loop is
    its body at each value of [l] in turn. *)
Lemma for_lt_range {S} (bound step : World -> num) (body : num -> S -> M S) w
    (nxt : num -> S -> S) (ev : num -> S -> list Call) :
  (forall x s, body x s w = (Some (nxt x s), w, ev x s)) ->
  forall fuel v l s,
    range_lt fuel v (bound w) (step w) = Some l ->
    for_lt fuel bound step body v s w =
      (Some (fold_left (fun s x => nxt x s) l s), w, loop_calls nxt ev l s).
Proof.
  intros Hbody fuel. induction fuel as [|k IH]; intros v l s Hr; [discriminate|].
  cbn [range_lt] in Hr. rewrite for_lt_turn.
  destruct (v <? bound w).
  - destruct (range_lt k (v + step w) (bound w) (step w)) as [l'|] eqn:E; [|discriminate].
    injection Hr as <-. cbn [fold_left loop_calls].
    apply bind_some with (1 := Hbody v s). now apply IH.
  - injection Hr as <-. reflexivity.
Qed.

Lemma range_lt_more fuel k v bound step l :
  range_lt fuel v bound step = Some l -> range_lt (fuel + k) v bound step = Some l.
Proof.
  revert v l. induction fuel as [|n IH]; intros v l H; [discriminate|].
  cbn [range_lt Nat.add] in *. destruct (v <? bound); [|exact H].
  destruct (range_lt n (v + step) bound step) as [l'|] eqn:E; [|discriminate].
  now rewrite (IH _ _ E).
Qed.


End Running.

(** ** The operations of the sketch, call by call *)

Section Operations.
Context {N : Number}.
Variable perlin : num -> num -> num.
Variable entropy : nat -> num.

(** *** [f] *)

(** [prevX] and [prevY] are read only from the second turn on, when they
    hold the point of the turn before: [to_number] never meets [undefined]. *)
Lemma f_loop_defined pts : forall i prev w,
  (i = 0 <-> prev = None) ->
  f_loop perlin i pts (option_map pt_x prev) (option_map pt_y prev) w =
    (Some tt, w, stroke_calls perlin (offsetR w) (xScale w) (yScale w) prev pts).
Proof.
  induction pts as [|p rest IH]; intros i prev w Hi; [reflexivity|].
  cbn [f_loop stroke_calls].
  set (q := displace perlin (offsetR w) (xScale w) (yScale w) p).
  assert (Hnext : (S i = 0 <-> Some q = None)) by (split; discriminate).
  specialize (IH (S i) (Some q) w Hnext). cbn [option_map] in IH.
  destruct prev as [q0|]; destruct i as [|i];
    try (exfalso; destruct Hi as [H1 H2]; (now discriminate H1) || (now discriminate H2)).
  - unfold bind, gets, noise, stroke, strokeWeight, line, call, ret. cbn.
    unfold q, displace, sample in IH. cbn in IH. rewrite IH. reflexivity.
  - unfold bind, gets, noise, stroke, strokeWeight, line, call, ret. cbn.
    unfold q, displace, sample in IH. cbn in IH. rewrite IH. reflexivity.
Qed.

Lemma f_run w :
  f perlin w =
    (Some tt, w, clear_P ++ stroke_calls perlin (offsetR w) (xScale w) (yScale w) None (drawing w)).
Proof.
  assert (H := @f_loop_defined (drawing w) 0 None w). cbn [option_map] in H.
  unfold f, bind, fill, rect, gets, call. cbn. rewrite H; [reflexivity|tauto].
Qed.

Lemma noise_args_app (a b : list Call) :
  noise_args (a ++ b) = noise_args a ++ noise_args b.
Proof. apply flat_map_app. Qed.


Lemma lines_of_app (a b : list Call) :
  lines_of (a ++ b) = lines_of a ++ lines_of b.
Proof. apply flat_map_app. Qed.

Lemma randoms_of_app (a b : list Call) :
  randoms_of (a ++ b) = randoms_of a ++ randoms_of b.
Proof. apply flat_map_app. Qed.

Lemma transformStroke_displace pts o sx sy :
  transformStroke perlin pts o sx sy = map (displace perlin o sx sy) pts.
Proof. reflexivity. Qed.

(** [f] samples the noise once per point of the stroke, in order. *)
Lemma stroke_calls_noise o sx sy pts : forall prev,
  noise_args (stroke_calls perlin o sx sy prev pts) =
    map (fun p => sample_at o sx sy (pt_x p) (pt_y p)) pts.
Proof.
  induction pts as [|p rest IH]; intros prev; [reflexivity|].
  cbn [stroke_calls map]. change (?c :: ?l ++ ?r) with ([c] ++ l ++ r).
  rewrite !noise_args_app, IH. now destruct prev.
Qed.

(** [f] joins the displaced points, moved onto board P, in order. *)
Lemma stroke_calls_lines o sx sy pts : forall prev,
  lines_of (stroke_calls perlin o sx sy prev pts) =
    segments (map onto_P (match prev with Some q => [q] | None => [] end
                          ++ transformStroke perlin pts o sx sy)).
Proof.
  induction pts as [|p rest IH]; intros prev.
  - now destruct prev.
  - cbn [stroke_calls]. change (?c :: ?l ++ ?r) with ([c] ++ l ++ r).
    rewrite !lines_of_app, IH. now destruct prev.
Qed.


Lemma segments_length (l : list Point) : length (segments l) = pred (length l).
Proof.
  induction l as [|p [|q l'] IH]; [reflexivity|reflexivity|].
  cbn [segments length pred] in *. now rewrite IH.
Qed.

(** *** The dot grids *)

Lemma loop_calls_flat_map {X} (e : X -> list Call) (l : list X) (s : unit) :
  loop_calls (fun _ _ => tt) (fun x _ => e x) l s = flat_map e l.
Proof.
  revert s. induction l as [|x l IH]; intros s; [reflexivity|].
  cbn [loop_calls flat_map]. now rewrite IH.
Qed.

Lemma flat_map_cells {B} (g : Point -> list B) cols rows :
  flat_map g (cells cols rows) =
    flat_map (fun x => flat_map (fun y => g (mkPoint x y)) rows) cols.
Proof.
  unfold cells. induction cols as [|x cols IH]; [reflexivity|].
  cbn [flat_map]. rewrite flat_map_app, IH. f_equal.
  clear IH. induction rows as [|y rows IH]; [reflexivity|].
  cbn [map flat_map]. now rewrite IH.
Qed.

(** The two nested loops of a dot grid, whatever the board. *)
Lemma dot_loops_run (offset ybound : World -> num) (ystart : num -> num)
    fuel w x0 cols rows :
  range_lt fuel x0 #1024 (gap w) = Some cols ->
  range_lt fuel (ystart (gap w)) (ybound w) (gap w) = Some rows ->
  for_lt fuel (fun _ => #1024) gap (fun x _ =>
    g <- gets gap ;;
    for_lt fuel ybound gap (fun y _ =>
      o <- gets offset ;;
      sx <- gets xScale ;;
      sy <- gets yScale ;;
      noiseValue <- noise perlin ((x + o) * sx) ((y + o) * sy) ;;
      g <- gets gap ;;
      let diameter := noiseValue * g in
      circle x y diameter)
    (ystart g) tt) x0 tt w =
  (Some tt, w,
   flat_map (dot_calls perlin (offset w) (xScale w) (yScale w) (gap w)) (cells cols rows)).
Proof.
  intros Hcols Hrows.
  rewrite for_lt_range with (l := cols) (nxt := fun _ _ => tt)
    (ev := fun x _ => flat_map (fun y => dot_calls perlin (offset w) (xScale w) (yScale w) (gap w)
                                           (mkPoint x y)) rows); [| |exact Hcols].
  - rewrite loop_calls_flat_map, flat_map_cells. f_equal. f_equal.
    clear. induction cols as [|x l IH]; [reflexivity|]. cbn [fold_left]. now destruct l.
  - intros x []. unfold bind at 1, gets at 1.
    rewrite for_lt_range with (l := rows) (nxt := fun _ _ => tt)
      (ev := fun y _ => dot_calls perlin (offset w) (xScale w) (yScale w) (gap w) (mkPoint x y));
      [| |exact Hrows].
    + rewrite loop_calls_flat_map. cbn. f_equal. f_equal.
      clear. induction rows as [|y l IH]; [reflexivity|]. cbn [fold_left]. now destruct l.
    + intros y []. reflexivity.
Qed.

Lemma dotGridR_run fuel w cols rows :
  range_lt fuel (#512 + gap w / #2) #1024 (gap w) = Some cols ->
  range_lt fuel (gap w / #2) (height w / #3) (gap w) = Some rows ->
  dotGridR perlin entropy fuel w =
    (Some tt,
     set_offsetR (entropy (randomCalls w) * #1000) (next_random w),
     clear_R ++ Random #1000
       :: flat_map (dot_calls perlin (entropy (randomCalls w) * #1000)
                              (xScale w) (yScale w) (gap w)) (cells cols rows)).
Proof.
  intros Hcols Hrows.
  set (w' := set_offsetR (entropy (randomCalls w) * #1000) (next_random w)).
  assert (H := @dot_loops_run offsetR (fun w => height w / #3) (fun g => g / #2)
                 fuel w' (#512 + gap w / #2) cols rows Hcols Hrows).
  unfold dotGridR, bind, noStroke, fill, rect, random, modify, gets, call. cbn.
  fold w'. change (gap w') with (gap w).
  unfold bind, gets in H. cbn in H. rewrite H. reflexivity.
Qed.

Lemma dotGridA_run fuel w cols :
  range_lt fuel (#512 + gap w / #2) #1024 (gap w) = Some cols ->
  dotGridA perlin entropy fuel w =
    (Some tt,
     set_offsetA (entropy (randomCalls w) * #1000) (next_random w),
     clear_A ++ Random #1000
       :: flat_map (dot_calls perlin (entropy (randomCalls w) * #1000)
                              (xScale w) (yScale w) (gap w)) (cells cols cols)).
Proof.
  intros Hcols.
  set (w' := set_offsetA (entropy (randomCalls w) * #1000) (next_random w)).
  assert (H := @dot_loops_run offsetA (fun _ => #1024) (fun g => #512 + g / #2)
                 fuel w' (#512 + gap w / #2) cols cols Hcols Hcols).
  unfold dotGridA, bind, noStroke, fill, rect, random, modify, gets, call. cbn.
  fold w'. change (gap w') with (gap w).
  unfold bind, gets in H. cbn in H. rewrite H. reflexivity.
Qed.

(** The dot loops under any budget: they leave the world alone, read it only
    through the gap, the scales, the board's offset and its lower bound, and
    call nothing but [noise] and [circle], each circle sized by a sample. *)
Lemma dot_loops_agree (offset ybound : World -> num) (ystart : num -> num) w1 w2 :
  gap w1 = gap w2 -> xScale w1 = xScale w2 -> yScale w1 = yScale w2 ->
  offset w1 = offset w2 -> ybound w1 = ybound w2 ->
  forall fuel x0, exists r o,
    for_lt fuel (fun _ => #1024) gap (fun x _ =>
      g <- gets gap ;;
      for_lt fuel ybound gap (fun y _ =>
        o <- gets offset ;;
        sx <- gets xScale ;;
        sy <- gets yScale ;;
        noiseValue <- noise perlin ((x + o) * sx) ((y + o) * sy) ;;
        g <- gets gap ;;
        let diameter := noiseValue * g in
        circle x y diameter)
      (ystart g) tt) x0 tt w1 = (r, w1, o) /\
    for_lt fuel (fun _ => #1024) gap (fun x _ =>
      g <- gets gap ;;
      for_lt fuel ybound gap (fun y _ =>
        o <- gets offset ;;
        sx <- gets xScale ;;
        sy <- gets yScale ;;
        noiseValue <- noise perlin ((x + o) * sx) ((y + o) * sy) ;;
        g <- gets gap ;;
        let diameter := noiseValue * g in
        circle x y diameter)
      (ystart g) tt) x0 tt w2 = (r, w2, o) /\
    Forall (dot_call perlin (gap w1)) o.
Proof.
  intros Hg Hsx Hsy Ho Hyb fuel x0.
  apply for_lt_agree; trivial.
  intros x []. rewrite !bind_gets, <- Hg.
  destruct (@for_lt_agree _ unit (dot_call perlin (gap w1)) ybound gap
              (fun y _ =>
                 o <- gets offset ;;
                 sx <- gets xScale ;;
                 sy <- gets yScale ;;
                 noiseValue <- noise perlin ((x + o) * sx) ((y + o) * sy) ;;
                 g <- gets gap ;;
                 let diameter := noiseValue * g in
                 circle x y diameter) w1 w2 Hyb Hg)
    with (fuel := fuel) (v := ystart (gap w1)) (s := tt) as (r & o & H1 & H2 & HP).
  - intros y []. unfold bind, gets, noise, circle, call. cbn.
    rewrite <- Hg, <- Hsx, <- Hsy, <- Ho. eexists _, _. repeat split.
    repeat constructor. cbn. eauto.
  - rewrite H1, H2. exists r, o. cbn. now repeat split.
Qed.

Lemma dotGridR_any fuel w :
  exists r o,
    dotGridR perlin entropy fuel w =
      (r, set_offsetR (entropy (randomCalls w) * #1000) (next_random w),
       clear_R ++ Random #1000 :: o) /\
    Forall (dot_call perlin (gap w)) o.
Proof.
  set (w' := set_offsetR (entropy (randomCalls w) * #1000) (next_random w)).
  destruct (@dot_loops_agree offsetR (fun w => height w / #3) (fun g => g / #2)
              w' w' eq_refl eq_refl eq_refl eq_refl eq_refl fuel (#512 + gap w / #2))
    as (r & o & H & _ & HP).
  exists r, o. split; [|exact HP].
  unfold dotGridR, bind, noStroke, fill, rect, random, modify, gets, call. cbn.
  fold w'. change (gap w') with (gap w).
  unfold bind, gets in H. cbn in H. rewrite H. reflexivity.
Qed.

Lemma dotGridA_any fuel w :
  exists r o,
    dotGridA perlin entropy fuel w =
      (r, set_offsetA (entropy (randomCalls w) * #1000) (next_random w),
       clear_A ++ Random #1000 :: o) /\
    Forall (dot_call perlin (gap w)) o.
Proof.
  set (w' := set_offsetA (entropy (randomCalls w) * #1000) (next_random w)).
  destruct (@dot_loops_agree offsetA (fun _ => #1024) (fun g => #512 + g / #2)
              w' w' eq_refl eq_refl eq_refl eq_refl eq_refl fuel (#512 + gap w / #2))
    as (r & o & H & _ & HP).
  exists r, o. split; [|exact HP].
  unfold dotGridA, bind, noStroke, fill, rect, random, modify, gets, call. cbn.
  fold w'. change (gap w') with (gap w).
  unfold bind, gets in H. cbn in H. rewrite H. reflexivity.
Qed.

(** *** [translateAToB] *)

Lemma loop_calls_app {X S} (nxt : X -> S -> S) (ev : X -> S -> list Call) l1 l2 s :
  loop_calls nxt ev (l1 ++ l2) s =
    loop_calls nxt ev l1 s ++ loop_calls nxt ev l2 (fold_left (fun s x => nxt x s) l1 s).
Proof.
  revert s. induction l1 as [|x l1 IH]; intros s; [reflexivity|].
  cbn [app loop_calls fold_left]. now rewrite IH, app_assoc.
Qed.

Lemma loop_calls_map {X Y S} (h : Y -> X) (nxt : X -> S -> S) (ev : X -> S -> list Call) l s :
  loop_calls nxt ev (map h l) s =
    loop_calls (fun y => nxt (h y)) (fun y => ev (h y)) l s.
Proof.
  revert s. induction l as [|y l IH]; intros s; [reflexivity|].
  cbn [map loop_calls]. now rewrite IH.
Qed.

Lemma fold_left_map_turn {X Y S} (h : Y -> X) (nxt : X -> S -> S) l s :
  fold_left (fun s x => nxt x s) (map h l) s = fold_left (fun s y => nxt (h y) s) l s.
Proof.
  revert s. induction l as [|y l IH]; intros s; [reflexivity|].
  cbn [map fold_left]. now rewrite IH.
Qed.

(** Nested loops over columns and rows are one loop over the cells. *)
Lemma loop_calls_cells {S} (nxt : Point -> S -> S) (ev : Point -> S -> list Call) cols rows s :
  loop_calls (fun x s => fold_left (fun s y => nxt (mkPoint x y) s) rows s)
             (fun x s => loop_calls (fun y => nxt (mkPoint x y)) (fun y => ev (mkPoint x y)) rows s)
             cols s =
    loop_calls nxt ev (cells cols rows) s.
Proof.
  unfold cells. revert s. induction cols as [|x cols IH]; intros s; [reflexivity|].
  cbn [loop_calls flat_map]. now rewrite loop_calls_app, loop_calls_map, fold_left_map_turn, IH.
Qed.

Lemma fold_left_cells {S} (nxt : Point -> S -> S) cols rows s :
  fold_left (fun s x => fold_left (fun s y => nxt (mkPoint x y) s) rows s) cols s =
    fold_left (fun s c => nxt c s) (cells cols rows) s.
Proof.
  unfold cells. revert s. induction cols as [|x cols IH]; intros s; [reflexivity|].
  cbn [fold_left flat_map]. now rewrite fold_left_app, fold_left_map_turn, IH.
Qed.

Lemma translate_turn_run x y prev w :
  (let '(prevX, prevY) := prev in
   o <- gets offsetA ;;
   sx <- gets xScale ;;
   sy <- gets yScale ;;
   noiseValue <- noise perlin ((x + o) * sx) ((y + o) * sy) ;;
   let newX := x + p5map noiseValue #0 #1 #(-10) #10 in
   let newY := y + p5map noiseValue #0 #1 #(-10) #10 in
   (if to_boolean prevX && to_boolean prevY then
      stroke #0 ;;
      strokeWeight #10 ;;
      line (to_number prevX - #512) (to_number prevY + #512)
           (newX - #512) (newY + #512)
    else ret tt) ;;
   ret (Some newX, Some newY)) w =
  (Some (translate_next perlin (offsetA w) (xScale w) (yScale w) (mkPoint x y) prev), w,
   translate_turn perlin (offsetA w) (xScale w) (yScale w) (mkPoint x y) prev).
Proof.
  destruct prev as [prevX prevY].
  unfold translate_next, translate_turn, displace, sample. cbn [fst snd pt_x pt_y].
  unfold bind, gets, noise, stroke, strokeWeight, line, call, ret.
  destruct (to_boolean prevX && to_boolean prevY); reflexivity.
Qed.

Lemma translateAToB_run fuel w cols :
  range_lt fuel (#512 + gap w / #2) #1024 (gap w) = Some cols ->
  translateAToB perlin fuel w =
    (Some tt, w,
     clear_B ++ translate_calls perlin (offsetA w) (xScale w) (yScale w) (cells cols cols)).
Proof.
  intros Hcols. unfold translateAToB, translate_calls.
  set (nxt := translate_next perlin (offsetA w) (xScale w) (yScale w)).
  set (ev := translate_turn perlin (offsetA w) (xScale w) (yScale w)).
  match goal with
  | |- context [for_lt fuel ?b gap ?body] =>
      assert (H : for_lt fuel b gap body (#512 + gap w / #2) (None, None) w =
                  (Some (fold_left (fun s c => nxt c s) (cells cols cols) (None, None)), w,
                   loop_calls nxt ev (cells cols cols) (None, None)))
  end.
  { rewrite for_lt_range with (l := cols)
      (nxt := fun x s => fold_left (fun s y => nxt (mkPoint x y) s) cols s)
      (ev := fun x s => loop_calls (fun y => nxt (mkPoint x y)) (fun y => ev (mkPoint x y)) cols s);
      [| |exact Hcols].
    - now rewrite loop_calls_cells, fold_left_cells.
    - intros x s. rewrite bind_gets.
      apply for_lt_range with (nxt := fun y => nxt (mkPoint x y)) (ev := fun y => ev (mkPoint x y));
        [|exact Hcols].
      intros y prev. apply translate_turn_run. }
  unfold fill, rect. rewrite !bind_call, bind_gets.
  erewrite bind_some; [|exact H|reflexivity]. cbn. now rewrite app_nil_r.
Qed.

(** Under any budget, [translateAToB] leaves the world alone and reads it
    only through the gap, the scales and board A's offset; it draws nothing
    at random. *)
Lemma translateAToB_agree fuel w1 w2 :
  gap w1 = gap w2 -> xScale w1 = xScale w2 -> yScale w1 = yScale w2 ->
  offsetA w1 = offsetA w2 ->
  exists r o,
    translateAToB perlin fuel w1 = (r, w1, o) /\
    translateAToB perlin fuel w2 = (r, w2, o) /\ Forall no_random o.
Proof.
  intros Hg Hsx Hsy Ho. unfold translateAToB, fill, rect.
  rewrite !bind_call, !bind_gets, <- Hg.
  match goal with
  | |- context [for_lt fuel ?b gap ?body _ _] =>
      destruct (@for_lt_agree _ _ no_random b gap body w1 w2 eq_refl Hg)
        with (fuel := fuel) (v := #512 + gap w1 / #2) (s := (@None num, @None num))
        as (r & o & H1 & H2 & HP)
  end.
  - intros x s. rewrite !bind_gets, <- Hg.
    apply for_lt_agree; trivial.
    intros y prev. rewrite !translate_turn_run, <- Hsx, <- Hsy, <- Ho.
    eexists _, _. repeat split.
    unfold translate_turn. destruct (to_boolean (fst prev) && to_boolean (snd prev));
      repeat constructor.
  - destruct r as [s|].
    + exists (Some tt), (Fill #255 :: Rect #0 #1024 #512 #512 :: o ++ []).
      erewrite bind_some; [|exact H1|reflexivity].
      erewrite bind_some; [|exact H2|reflexivity].
      repeat split. repeat constructor. rewrite app_nil_r. exact HP.
    + exists None, (Fill #255 :: Rect #0 #1024 #512 #512 :: o).
      erewrite bind_none; [|exact H1]. erewrite bind_none; [|exact H2].
      repeat split. now repeat constructor.
Qed.

(** *** The board, the reset and the handlers *)

Lemma drawBoard_run w : drawBoard w = (Some tt, w, board_calls).
Proof. reflexivity. Qed.

Lemma resetLeftSide_run w :
  resetLeftSide w =
    (Some tt, set_drawing [] w,
     [NoStroke; Fill #255; Rect #0 #0 #512 #512] ++ board_calls).
Proof. reflexivity. Qed.

Lemma draw_run p w :
  exists o, draw p w =
    (Some tt,
     (if mouseIsPressed p && (mouseX p <=? #512) && (mouseY p <=? #512)
      then set_drawing (drawing w ++ [mkPoint (mouseX p) (mouseY p)]) w else w), o).
Proof.
  unfold draw.
  destruct (mouseIsPressed p && (mouseX p <=? #512) && (mouseY p <=? #512));
    eexists; reflexivity.
Qed.

Lemma mousePressed_run t p w :
  exists o, mousePressed t p w =
    (Some tt,
     set_lastClickTime t
       (if (t - lastClickTime w <? doubleClickThreshold w)
           && (mouseX p <=? #512) && (mouseY p <=? #512)
        then set_drawing [] w else w), o).
Proof.
  unfold mousePressed. rewrite !bind_gets.
  destruct ((t - lastClickTime w <? doubleClickThreshold w)
            && (mouseX p <=? #512) && (mouseY p <=? #512)).
  - erewrite bind_some; [|apply resetLeftSide_run|reflexivity]. eexists; reflexivity.
  - eexists; reflexivity.
Qed.

(** *** [mouseReleased], when the grid loops end within the budget *)
Lemma mouseReleased_run fuel w cols rows :
  range_lt fuel (#512 + gap w / #2) #1024 (gap w) = Some cols ->
  range_lt fuel (gap w / #2) (height w / #3) (gap w) = Some rows ->
  let oR := entropy (randomCalls w) * #1000 in
  let oA := entropy (S (randomCalls w)) * #1000 in
  mouseReleased perlin entropy fuel w =
    (Some tt,
     set_offsetA oA (next_random (set_offsetR oR (next_random w))),
     (clear_R ++ Random #1000
        :: flat_map (dot_calls perlin oR (xScale w) (yScale w) (gap w)) (cells cols rows))
     ++ (clear_P ++ stroke_calls perlin oR (xScale w) (yScale w) None (drawing w))
     ++ (clear_A ++ Random #1000
           :: flat_map (dot_calls perlin oA (xScale w) (yScale w) (gap w)) (cells cols cols))
     ++ (clear_B ++ translate_calls perlin oA (xScale w) (yScale w) (cells cols cols))).
Proof.
  intros Hcols Hrows oR oA. unfold mouseReleased.
  set (w1 := set_offsetR oR (next_random w)).
  set (w2 := set_offsetA oA (next_random w1)).
  eapply bind_some; [now apply dotGridR_run|]. fold oR w1.
  eapply bind_some; [apply (f_run w1)|].
  eapply bind_some; [now apply (@dotGridA_run fuel w1 cols)|].
  apply (@translateAToB_run fuel w2 cols Hcols).
Qed.

(** *** Every operation keeps the gap and the canvas *)
Lemma mouseReleased_any fuel w :
  exists r w' o,
    mouseReleased perlin entropy fuel w = (r, w', o) /\
    gap w' = gap w /\ height w' = height w /\ drawing w' = drawing w.
Proof.
  unfold mouseReleased.
  destruct (dotGridR_any fuel w) as (r1 & o1 & H1 & _).
  set (w1 := set_offsetR (entropy (randomCalls w) * #1000) (next_random w)) in *.
  destruct r1 as [[]|].
  2:{ exists None, w1; eexists; split; [apply bind_none; exact H1|now repeat split]. }
  destruct (dotGridA_any fuel w1) as (r2 & o2 & H2 & _).
  set (w2 := set_offsetA (entropy (randomCalls w1) * #1000) (next_random w1)) in *.
  destruct (@translateAToB_agree fuel w2 w2 eq_refl eq_refl eq_refl eq_refl)
    as (r3 & o3 & H3 & _).
  destruct r2 as [[]|].
  - exists r3, w2; eexists; split.
    + eapply bind_some; [exact H1|]. eapply bind_some; [apply (f_run w1)|].
      eapply bind_some; [exact H2|exact H3].
    + now repeat split.
  - exists None, w2; eexists; split.
    + eapply bind_some; [exact H1|]. eapply bind_some; [apply (f_run w1)|].
      apply bind_none. exact H2.
    + now repeat split.
Qed.

Lemma handle_tuned fuel e w :
  tuned w -> tuned (world_of (handle perlin entropy fuel e w)).
Proof.
  intros [Hg Hh]. destruct e as [p|t p|]; cbn [handle].
  - destruct (draw_run p w) as (o & ->). cbn.
    now destruct (mouseIsPressed p && (mouseX p <=? #512) && (mouseY p <=? #512)).
  - destruct (mousePressed_run t p w) as (o & ->). cbn.
    now destruct ((t - lastClickTime w <? doubleClickThreshold w)
                  && (mouseX p <=? #512) && (mouseY p <=? #512)).
  - destruct (mouseReleased_any fuel w) as (r & w' & o & -> & Hg' & Hh' & _).
    split; cbn; congruence.
Qed.

Lemma session_tuned fuel es : forall w,
  tuned w -> tuned (world_of (session perlin entropy fuel es w)).
Proof.
  induction es as [|e es IH]; intros w Hw; [exact Hw|].
  cbn [session]. assert (He := @handle_tuned fuel e w Hw).
  unfold bind. destruct (handle perlin entropy fuel e w) as [[[[]|] w1] o1]; [|exact He].
  specialize (IH w1 He).
  destruct (session perlin entropy fuel es w1) as [[r w2] o2]. exact IH.
Qed.

Lemma setup_any fuel w :
  exists r w' o,
    setup perlin entropy fuel w = (r, w', o) /\
    gap w' = gap w /\ height w' = #1536.
Proof.
  unfold setup.
  set (w0 := set_canvas #1024 #1536 w).
  destruct (dotGridR_any fuel w0) as (r1 & o1 & H1 & _).
  set (w1 := set_offsetR (entropy (randomCalls w0) * #1000) (next_random w0)) in *.
  assert (Hc : createCanvas #1024 #1536 w = (Some tt, w0, [CreateCanvas #1024 #1536]))
    by reflexivity.
  destruct r1 as [[]|].
  - destruct (dotGridA_any fuel w1) as (r2 & o2 & H2 & _).
    eexists r2, _, _. split.
    + eapply bind_some; [exact Hc|]. eapply bind_some; [reflexivity|].
      eapply bind_some; [apply drawBoard_run|]. eapply bind_some; [exact H1|exact H2].
    + now split.
  - exists None, w1. eexists. split.
    + eapply bind_some; [exact Hc|]. eapply bind_some; [reflexivity|].
      eapply bind_some; [apply drawBoard_run|]. apply bind_none. exact H1.
    + now split.
Qed.

(** Whatever the events and the budget, the page stays as the sketch
    configures it: a gap of 20 on a canvas 1536 high. *)
Lemma page_tuned fuel es : tuned (world_of (run_page perlin entropy fuel es)).
Proof.
  unfold run_page.
  destruct (setup_any fuel initial) as (r & w' & o & H & Hg & Hh).
  assert (Hw : tuned w') by (split; [exact Hg|exact Hh]).
  unfold bind. rewrite H. destruct r as [[]|]; [|exact Hw].
  assert (Hs := @session_tuned fuel es w' Hw).
  destruct (session perlin entropy fuel es w') as [[r2 w2] o2]. exact Hs.
Qed.

End Operations.

(** ** The two grid ranges, computed

    With a gap of 20 the column loop visits 522, 542, ..., 1022 and the row
    loop of board R visits 10, 30, ..., 510: 26 values each, so 27 turns of
    budget are enough.  Both number systems agree on this. *)

Lemma double_columns :
  range_lt (N := double) 27 (#512 + #20 / #2) #1024 #20 = Some (ticks 522 26).
Proof. vm_compute. reflexivity. Qed.

Lemma double_rows :
  range_lt (N := double) 27 (#20 / #2) (#1536 / #3) #20 = Some (ticks 10 26).
Proof. vm_compute. reflexivity. Qed.



(** The decimal literals of lines 2-3 are the doubles a JavaScript engine
    reads them as. *)
Module Literals.
Import Floats.

Lemma double_literals :
  @lit double 0.015%Q = 0x1.eb851eb851eb8p-7%float /\
  @lit double 0.02%Q = 0x1.47ae147ae147bp-6%float /\
  @lit double (-10)%Q = (-10)%float.
Proof. vm_compute. repeat split; reflexivity. Qed.

End Literals.

(** ** The stroke transformer, the offsets and the reset, for any numbers *)

Section Transformer.
Context {N : Number}.
Variable perlin : num -> num -> num.
Variable entropy : nat -> num.

(** C1.  Whatever the stroke and the offset, [f] asks for one noise sample
    per point [p], at [((p.x + offset) * scaleX, (p.y + offset) * scaleY)],
    maps it to one displacement [d = map(n, 0, 1, -10, 10)] and joins the
    points [(p.x + d, p.y + d)], drawn 512 lower on board P: each point is
    moved by the same amount along x and along y. *)
Theorem f_moves_both_axes_alike (w : World) :
  let o := offsetR w in
  let sx := xScale w in
  let sy := yScale w in
  result (f perlin w) = Some tt /\
  noise_args (calls (f perlin w)) =
    map (fun p => ((pt_x p + o) * sx, (pt_y p + o) * sy)) (drawing w) /\
  lines_of (calls (f perlin w)) =
    segments
      (map (fun p =>
              let n := perlin ((pt_x p + o) * sx) ((pt_y p + o) * sy) in
              let d := p5map n #0 #1 #(-10) #10 in
              mkPoint (pt_x p + d) (pt_y p + d + #512))
           (drawing w)).
Proof.
  intros o sx sy. rewrite f_run. cbn [result calls fst snd].
  repeat split.
  - rewrite noise_args_app, stroke_calls_noise. reflexivity.
  - rewrite lines_of_app, stroke_calls_lines. cbn [lines_of clear_P flat_map app].
    unfold transformStroke. rewrite map_map. reflexivity.
Qed.

(** C4.  For a stroke of any length, none and one included, [f] ends, takes
    one sample per point in the order of the stroke, and draws the polyline
    through the points of [transformStroke], which are as many as the
    stroke's, the i-th being the i-th point displaced. *)
Theorem f_one_point_per_point (w : World) :
  let out := transformStroke perlin (drawing w) (offsetR w) (xScale w) (yScale w) in
  result (f perlin w) = Some tt /\
  world_of (f perlin w) = w /\
  length (noise_args (calls (f perlin w))) = length (drawing w) /\
  lines_of (calls (f perlin w)) = segments (map onto_P out) /\
  length (lines_of (calls (f perlin w))) = pred (length (drawing w)) /\
  length out = length (drawing w) /\
  forall i, nth_error out i =
            option_map (displace perlin (offsetR w) (xScale w) (yScale w))
                       (nth_error (drawing w) i).
Proof.
  intros out. rewrite f_run. cbn [result world_of calls fst snd].
  assert (Hlines : lines_of (clear_P ++ stroke_calls perlin (offsetR w) (xScale w) (yScale w)
                                                    None (drawing w))
                   = segments (map onto_P out)).
  { rewrite lines_of_app, stroke_calls_lines. reflexivity. }
  repeat split.
  - rewrite noise_args_app, stroke_calls_noise. cbn [noise_args clear_P flat_map app].
    apply length_map.
  - exact Hlines.
  - rewrite Hlines, segments_length. unfold out, transformStroke.
    now rewrite !length_map.
  - unfold out, transformStroke. apply length_map.
  - intros i. unfold out. rewrite transformStroke_displace. apply nth_error_map.
Qed.

(** C6.  Under any budget, [dotGridR] stores a fresh offset for board R and
    leaves board A's offset, and with it every sample and the whole of
    [translateAToB], as they were; [dotGridA] does the same the other way
    round, leaving board R's offset, its samples and [f] as they were. *)
Theorem reseed_touches_one_offset (fuel : nat) (w : World) :
  let wR := world_of (dotGridR perlin entropy fuel w) in
  let wA := world_of (dotGridA perlin entropy fuel w) in
  (offsetR wR = entropy (randomCalls w) * #1000 /\
   offsetA wR = offsetA w /\
   (forall x y, sample perlin (offsetA wR) (xScale wR) (yScale wR) x y =
                sample perlin (offsetA w) (xScale w) (yScale w) x y) /\
   (forall n, result (translateAToB perlin n wR) = result (translateAToB perlin n w) /\
              calls (translateAToB perlin n wR) = calls (translateAToB perlin n w))) /\
  (offsetA wA = entropy (randomCalls w) * #1000 /\
   offsetR wA = offsetR w /\
   (forall x y, sample perlin (offsetR wA) (xScale wA) (yScale wA) x y =
                sample perlin (offsetR w) (xScale w) (yScale w) x y) /\
   calls (f perlin wA) = calls (f perlin w)).
Proof.
  intros wR wA.
  destruct (dotGridR_any perlin entropy fuel w) as (r1 & o1 & H1 & _).
  destruct (dotGridA_any perlin entropy fuel w) as (r2 & o2 & H2 & _).
  unfold wR, wA. rewrite H1, H2. cbn [world_of fst snd]. split.
  - repeat split.
    + destruct (@translateAToB_agree _ perlin n
                  (set_offsetR (entropy (randomCalls w) * #1000) (next_random w)) w
                  eq_refl eq_refl eq_refl eq_refl) as (r & o & Ha & Hb & _).
      now rewrite Ha, Hb.
    + destruct (@translateAToB_agree _ perlin n
                  (set_offsetR (entropy (randomCalls w) * #1000) (next_random w)) w
                  eq_refl eq_refl eq_refl eq_refl) as (r & o & Ha & Hb & _).
      now rewrite Ha, Hb.
  - repeat split. now rewrite !f_run.
Qed.

(** C8.  [resetLeftSide] empties the stroke and keeps both offsets; after it
    [transformStroke] has nothing to return and [f] only clears board P: no
    sample is taken and no segment drawn.  A double click inside board L is
    such a reset. *)
Theorem reset_clears_only_the_stroke (w : World) :
  let w' := world_of (resetLeftSide w) in
  result (resetLeftSide w) = Some tt /\
  drawing w' = [] /\
  offsetR w' = offsetR w /\
  offsetA w' = offsetA w /\
  transformStroke perlin (drawing w') (offsetR w') (xScale w') (yScale w') = [] /\
  f perlin w' = (Some tt, w', clear_P) /\
  noise_args (calls (f perlin w')) = [] /\
  lines_of (calls (f perlin w')) = [] /\
  forall t p,
    (t - lastClickTime w <? doubleClickThreshold w)
    && (mouseX p <=? #512) && (mouseY p <=? #512) = true ->
    world_of (mousePressed t p w) = set_lastClickTime t w'.
Proof.
  intros w'. unfold w'. rewrite resetLeftSide_run. cbn [result world_of fst snd].
  repeat split.
  intros t p Hclick. destruct (mousePressed_run t p w) as (o & ->).
  now rewrite Hclick.
Qed.

End Transformer.

(** ** What the grid operations call *)

Section Grids.
Context {N : Number}.
Variable perlin : num -> num -> num.

Lemma dots_noise o sx sy g cs :
  noise_args (flat_map (dot_calls perlin o sx sy g) cs) =
    map (fun c => sample_at o sx sy (pt_x c) (pt_y c)) cs.
Proof. induction cs as [|c cs IH]; [reflexivity|]. cbn. now rewrite <- IH. Qed.

Lemma dots_circles o sx sy g cs :
  circles_of (flat_map (dot_calls perlin o sx sy g) cs) =
    map (fun c => (pt_x c, pt_y c, sample perlin o sx sy (pt_x c) (pt_y c) * g)) cs.
Proof. induction cs as [|c cs IH]; [reflexivity|]. cbn. now rewrite <- IH. Qed.


Lemma translate_noise o sx sy cs : forall prev,
  noise_args (loop_calls (translate_next perlin o sx sy) (translate_turn perlin o sx sy) cs prev) =
    map (fun c => sample_at o sx sy (pt_x c) (pt_y c)) cs.
Proof.
  induction cs as [|c cs IH]; intros prev; [reflexivity|].
  cbn [loop_calls map]. rewrite noise_args_app, IH. unfold translate_turn.
  now destruct (to_boolean (fst prev) && to_boolean (snd prev)).
Qed.

Lemma translate_randoms o sx sy cs : forall prev,
  randoms_of (loop_calls (translate_next perlin o sx sy) (translate_turn perlin o sx sy) cs prev) = [].
Proof.
  induction cs as [|c cs IH]; intros prev; [reflexivity|].
  cbn [loop_calls]. rewrite randoms_of_app, IH. unfold translate_turn.
  now destruct (to_boolean (fst prev) && to_boolean (snd prev)).
Qed.

Lemma noise_args_grid_R m l : noise_args (clear_R ++ Random m :: l) = noise_args l.
Proof. reflexivity. Qed.

Lemma noise_args_grid_A m l : noise_args (clear_A ++ Random m :: l) = noise_args l.
Proof. reflexivity. Qed.

Lemma circles_of_grid_R m l : circles_of (clear_R ++ Random m :: l) = circles_of l.
Proof. reflexivity. Qed.

Lemma circles_of_grid_A m l : circles_of (clear_A ++ Random m :: l) = circles_of l.
Proof. reflexivity. Qed.



Lemma centers_more fuel k (g : GridSpec) l :
  centers fuel g = Some l -> centers (fuel + k) g = Some l.
Proof.
  unfold centers.
  destruct (range_lt fuel (originX g + step g / #2) (originX g + extentX g) (step g))
    as [cols|] eqn:Ec; [|discriminate].
  destruct (range_lt fuel (originY g + step g / #2) (originY g + extentY g) (step g))
    as [rows|] eqn:Er; [|discriminate].
  intros H.
  now rewrite (@range_lt_more _ fuel k _ _ _ _ Ec), (@range_lt_more _ fuel k _ _ _ _ Er).
Qed.

Lemma cells_length cols rows :
  length (cells cols rows) = (length cols * length rows)%nat.
Proof.
  unfold cells. induction cols as [|x cols IH]; [reflexivity|].
  cbn [flat_map length]. now rewrite length_app, length_map, IH.
Qed.

Lemma ticks_length first n : length (ticks first n) = n.
Proof. unfold ticks. now rewrite length_map, length_seq. Qed.

End Grids.

(** ** The running sketch, on doubles *)

Section OnDoubles.
Variable perlin : @num double -> @num double -> @num double.
Variable entropy : nat -> @num double.

Lemma tuned_columns (w : @World double) k :
  tuned w -> range_lt (27 + k)%nat (#512 + gap w / #2) #1024 (gap w) = Some (ticks 522 26).
Proof. intros [-> _]. apply range_lt_more, double_columns. Qed.

Lemma tuned_rows (w : @World double) k :
  tuned w -> range_lt (27 + k)%nat (gap w / #2) (height w / #3) (gap w) = Some (ticks 10 26).
Proof. intros [-> ->]. apply range_lt_more, double_rows. Qed.

(** C2.  With the sketch's gap and canvas, the grid of board R samples the
    noise at [((x + offsetR) * xScale, (y + offsetR) * yScale)] for each of
    its centers [(x, y)], with the offset it has just stored; board A's grid
    and [translateAToB] do so with [offsetA], and [f] with [offsetR] at
    each point of the stroke: the offset is added before the scaling. *)
Theorem offset_is_added_before_scaling (k : nat) (w : @World double) :
  tuned w ->
  let fuel := (27 + k)%nat in
  let sx := xScale w in
  let sy := yScale w in
  let wR := world_of (dotGridR perlin entropy fuel w) in
  let wA := world_of (dotGridA perlin entropy fuel w) in
  (result (dotGridR perlin entropy fuel w) = Some tt /\
   noise_args (calls (dotGridR perlin entropy fuel w)) =
     map (fun c => ((pt_x c + offsetR wR) * sx, (pt_y c + offsetR wR) * sy))
         (cells (ticks 522 26) (ticks 10 26))) /\
  (result (dotGridA perlin entropy fuel w) = Some tt /\
   noise_args (calls (dotGridA perlin entropy fuel w)) =
     map (fun c => ((pt_x c + offsetA wA) * sx, (pt_y c + offsetA wA) * sy))
         (cells (ticks 522 26) (ticks 522 26))) /\
  (result (translateAToB perlin fuel w) = Some tt /\
   noise_args (calls (translateAToB perlin fuel w)) =
     map (fun c => ((pt_x c + offsetA w) * sx, (pt_y c + offsetA w) * sy))
         (cells (ticks 522 26) (ticks 522 26))) /\
  (result (f perlin w) = Some tt /\
   noise_args (calls (f perlin w)) =
     map (fun p => ((pt_x p + offsetR w) * sx, (pt_y p + offsetR w) * sy)) (drawing w)).
Proof.
  intros Hw fuel sx sy wR wA. unfold wR, wA, fuel.
  rewrite (@dotGridR_run _ perlin entropy _ w _ _ (tuned_columns k Hw) (tuned_rows k Hw)).
  rewrite (@dotGridA_run _ perlin entropy _ w _ (tuned_columns k Hw)).
  rewrite (@translateAToB_run _ perlin _ w _ (tuned_columns k Hw)).
  rewrite f_run. cbn [result world_of calls fst snd].
  split; [|split; [|split]]; (split; [reflexivity|]).
  - now rewrite noise_args_grid_R, dots_noise.
  - now rewrite noise_args_grid_A, dots_noise.
  - rewrite noise_args_app. unfold translate_calls. now rewrite translate_noise.
  - rewrite noise_args_app. now rewrite stroke_calls_noise.
Qed.

(** C5.  The centers of a grid start half a step inside it and advance by
    whole steps while below its far side: the grid at (0,0) of extent
    (40,40) and step 20 has the four centers (10,10), (10,30), (30,10),
    (30,30), in this order; and the circles [dotGridR] and [dotGridA] draw
    sit at the centers of boards R and A, 26 by 26 of them. *)
Theorem grid_centers_half_step_inset (k : nat) (w : @World double) :
  tuned w ->
  let at_center (c : num * num * num) := mkPoint (fst (fst c)) (snd (fst c)) in
  @centers double (3 + k) scenario_grid =
    Some [mkPoint #10 #10; mkPoint #10 #30; mkPoint #30 #10; mkPoint #30 #30] /\
  @centers double (27 + k) board_R = Some (cells (ticks 522 26) (ticks 10 26)) /\
  @centers double (27 + k) board_A = Some (cells (ticks 522 26) (ticks 522 26)) /\
  Some (map at_center (circles_of (calls (dotGridR perlin entropy (27 + k) w)))) =
    centers (27 + k) board_R /\
  Some (map at_center (circles_of (calls (dotGridA perlin entropy (27 + k) w)))) =
    centers (27 + k) board_A /\
  length (circles_of (calls (dotGridR perlin entropy (27 + k) w))) = 676 /\
  length (circles_of (calls (dotGridA perlin entropy (27 + k) w))) = 676.
Proof.
  intros Hw at_center.
  assert (Hs : centers (N := double) (3 + k) scenario_grid =
               Some [mkPoint #10 #10; mkPoint #10 #30; mkPoint #30 #10; mkPoint #30 #30]).
  { apply centers_more. vm_compute. reflexivity. }
  assert (HR : centers (N := double) (27 + k) board_R = Some (cells (ticks 522 26) (ticks 10 26))).
  { apply centers_more. vm_compute. reflexivity. }
  assert (HA : centers (N := double) (27 + k) board_A = Some (cells (ticks 522 26) (ticks 522 26))).
  { apply centers_more. vm_compute. reflexivity. }
  rewrite Hs, HR, HA.
  rewrite (@dotGridR_run _ perlin entropy _ w _ _ (tuned_columns k Hw) (tuned_rows k Hw)).
  rewrite (@dotGridA_run _ perlin entropy _ w _ (tuned_columns k Hw)).
  cbn [calls snd]. rewrite circles_of_grid_R, circles_of_grid_A, !dots_circles.
  rewrite !map_map, !length_map, !cells_length, !ticks_length.
  unfold at_center. cbn [fst snd].
  assert (Hid : forall l : list (@Point double), map (fun c => mkPoint (pt_x c) (pt_y c)) l = l).
  { intros l. rewrite <- (map_id l) at 2. apply map_ext. now intros []. }
  rewrite !Hid. repeat split.
Qed.


(** C10.  With the sketch's gap and canvas, [translateAToB] run after
    [dotGridA] stores no offset and draws none at random, and asks for the
    noise at exactly the arguments [dotGridA] asked for, cell by cell: the
    sample that displaces a cell of board A is the sample that sized its dot. *)
Theorem board_B_moves_what_board_A_shows (k : nat) (w : @World double) :
  tuned w ->
  let fuel := (27 + k)%nat in
  let gridA := dotGridA perlin entropy fuel w in
  let wA := world_of gridA in
  let gridB := translateAToB perlin fuel wA in
  let grid := cells (ticks 522 26) (ticks 522 26) in
  result gridA = Some tt /\
  result gridB = Some tt /\
  world_of gridB = wA /\
  randoms_of (calls gridB) = [] /\
  noise_args (calls gridB) = noise_args (calls gridA) /\
  noise_args (calls gridA) =
    map (fun c => ((pt_x c + offsetA wA) * xScale wA, (pt_y c + offsetA wA) * yScale wA)) grid /\
  circles_of (calls gridA) =
    map (fun c => (pt_x c, pt_y c,
                   perlin ((pt_x c + offsetA wA) * xScale wA) ((pt_y c + offsetA wA) * yScale wA)
                   * gap wA)) grid /\
  calls gridB =
    clear_B ++
    loop_calls
      (fun c _ =>
         let n := perlin ((pt_x c + offsetA wA) * xScale wA) ((pt_y c + offsetA wA) * yScale wA) in
         (Some (pt_x c + p5map n #0 #1 #(-10) #10), Some (pt_y c + p5map n #0 #1 #(-10) #10)))
      (translate_turn perlin (offsetA wA) (xScale wA) (yScale wA))
      grid (None, None).
Proof.
  intros Hw fuel gridA wA gridB grid.
  assert (Hcols := tuned_columns k Hw).
  assert (EA := @dotGridA_run _ perlin entropy _ w _ Hcols). fold fuel gridA in EA.
  assert (EwA : wA = set_offsetA (entropy (randomCalls w) * #1000) (next_random w))
    by (unfold wA; now rewrite EA).
  assert (EB : gridB = _) by (apply (@translateAToB_run _ perlin fuel wA); rewrite EwA; exact Hcols).
  rewrite EA, EB. cbn [result world_of calls fst snd]. fold grid.
  rewrite randoms_of_app, noise_args_app, noise_args_grid_A, circles_of_grid_A.
  unfold translate_calls. rewrite translate_randoms, translate_noise, dots_noise, dots_circles.
  rewrite EwA. cbn [offsetA xScale yScale gap set_offsetA next_random].
  repeat split.
Qed.

(** *** Every handler ends, and so does every session *)

Lemma handle_runs k e (w : @World double) :
  tuned w -> result (handle perlin entropy (27 + k) e w) = Some tt.
Proof.
  intros Hw. destruct e as [p|t p|]; cbn [handle].
  - now destruct (draw_run p w) as (o & ->).
  - now destruct (mousePressed_run t p w) as (o & ->).
  - now rewrite (@mouseReleased_run _ perlin entropy _ w _ _
                   (tuned_columns k Hw) (tuned_rows k Hw)).
Qed.

Lemma session_runs k es : forall w : @World double,
  tuned w -> result (session perlin entropy (27 + k) es w) = Some tt.
Proof.
  induction es as [|e es IH]; intros w Hw; [reflexivity|].
  cbn [session]. erewrite bind_result by exact (handle_runs k e Hw).
  apply IH. now apply handle_tuned.
Qed.

Lemma setup_runs k :
  result (setup perlin entropy (27 + k) (@initial double)) = Some tt /\
  tuned (world_of (setup perlin entropy (27 + k) (@initial double))).
Proof.
  set (w0 := set_canvas #1024 #1536 (@initial double)).
  assert (H0 : tuned w0) by (split; reflexivity).
  set (w1 := set_offsetR (entropy (randomCalls w0) * #1000) (next_random w0)).
  assert (H1 : tuned w1) by (split; reflexivity).
  assert (E : setup perlin entropy (27 + k) (@initial double) =
              (Some tt, set_offsetA (entropy (randomCalls w1) * #1000) (next_random w1),
               [CreateCanvas #1024 #1536] ++ [Background #255] ++ board_calls
               ++ (clear_R ++ Random #1000
                     :: flat_map (dot_calls perlin (entropy (randomCalls w0) * #1000)
                                            (xScale w0) (yScale w0) (gap w0))
                                 (cells (ticks 522 26) (ticks 10 26)))
               ++ (clear_A ++ Random #1000
                     :: flat_map (dot_calls perlin (entropy (randomCalls w1) * #1000)
                                            (xScale w1) (yScale w1) (gap w1))
                                 (cells (ticks 522 26) (ticks 522 26))))).
  { unfold setup.
    eapply bind_some; [reflexivity|]. eapply bind_some; [reflexivity|].
    eapply bind_some; [apply drawBoard_run|].
    eapply bind_some;
      [exact (@dotGridR_run _ perlin entropy _ w0 _ _ (tuned_columns k H0) (tuned_rows k H0))|].
    exact (@dotGridA_run _ perlin entropy _ w1 _ (tuned_columns k H1)). }
  rewrite E. split; [reflexivity|]. split; reflexivity.
Qed.

(** X13.  With 27 turns or more per loop, the page ends its [setup] and
    every handler after it, whatever the events. *)
Lemma page_runs k es : result (run_page perlin entropy (27 + k) es) = Some tt.
Proof.
  unfold run_page. destruct (setup_runs k) as [Hr Hw].
  erewrite bind_result by exact Hr. now apply session_runs.
Qed.

End OnDoubles.

(** ** A grid whose loops never end *)

Section Spinning.
Context {N : Number}.
Variable perlin : num -> num -> num.
Variable entropy : nat -> num.





End Spinning.

(** ** Ranges and divergence, in exact arithmetic *)

Section OnRationals.
Variable perlin : Q -> Q -> Q.
Variable entropy : nat -> Q.








End OnRationals.

(** ** The theorems at work on a concrete page *)

(** The specification's stroke scenario, with offset 0: two points, each
    moved by its own displacement, the same along x and along y. *)
Lemma scenario_stroke :
  let w := set_offsetR #0 (@studio double) in
  let d1 := p5map (bump ((#100 + #0) * #0.015) ((#100 + #0) * #0.02)) #0 #1 #(-10) #10 in
  let d2 := p5map (bump ((#110 + #0) * #0.015) ((#100 + #0) * #0.02)) #0 #1 #(-10) #10 in
  transformStroke bump (drawing w) (offsetR w) (xScale w) (yScale w) =
    [mkPoint (#100 + d1) (#100 + d1); mkPoint (#110 + d2) (#100 + d2)] /\
  lines_of (calls (f bump w)) =
    [(mkPoint (#100 + d1) (#100 + d1 + #512), mkPoint (#110 + d2) (#100 + d2 + #512))].
Proof. vm_compute. split; reflexivity. Qed.

(** The specification's grid scenario, in exact arithmetic too. *)
Lemma scenario_centers_exact :
  @centers exact 3 scenario_grid =
    Some [mkPoint #10 #10; mkPoint #10 #30; mkPoint #30 #10; mkPoint #30 #30].
Proof. vm_compute. reflexivity. Qed.


(** C2 on the page of the examples: the two samples of [f], and the sample
    of board R's grid at its center (542, 30), with the offset 500 the grid
    has just drawn. *)
Lemma offset_is_added_before_scaling_witness :
  tuned (@studio double) /\
  noise_args (calls (f bump (@studio double))) =
    [ ((#100 + #100) * #0.015, (#100 + #100) * #0.02);
      ((#110 + #100) * #0.015, (#100 + #100) * #0.02) ] /\
  nth_error (noise_args (calls (dotGridR bump harmonic 27 (@studio double)))) 27 =
    Some ((#542 + harmonic 0 * #1000) * #0.015, (#30 + harmonic 0 * #1000) * #0.02).
Proof.
  assert (Hw : tuned (@studio double)) by (split; reflexivity).
  destruct (@offset_is_added_before_scaling bump harmonic 0 studio Hw)
    as ((_ & HR) & _ & _ & (_ & HF)).
  split; [exact Hw|]. split.
  - rewrite HF. reflexivity.
  - cbn [Nat.add] in HR. rewrite HR. reflexivity.
Defined.

(** C5 on the page of the examples. *)
Lemma grid_centers_half_step_inset_witness :
  tuned (@studio double) /\
  @centers double 3 scenario_grid =
    Some [mkPoint #10 #10; mkPoint #10 #30; mkPoint #30 #10; mkPoint #30 #30] /\
  length (circles_of (calls (dotGridR bump harmonic 27 (@studio double)))) = 676 /\
  Some (map (fun c : num * num * num => mkPoint (fst (fst c)) (snd (fst c)))
            (circles_of (calls (dotGridR bump harmonic 27 (@studio double))))) =
    @centers double 27 board_R.
Proof.
  assert (Hw : tuned (@studio double)) by (split; reflexivity).
  destruct (@grid_centers_half_step_inset bump harmonic 0 studio Hw)
    as (Hs & _ & _ & HR & _ & Hn & _).
  split; [exact Hw|]. split; [exact Hs|]. split; [exact Hn|exact HR].
Defined.


(** C10 on the page of the examples. *)
Lemma board_B_moves_what_board_A_shows_witness :
  tuned (@studio double) /\
  noise_args (calls (translateAToB bump 27
                       (world_of (dotGridA bump harmonic 27 (@studio double))))) =
    noise_args (calls (dotGridA bump harmonic 27 (@studio double))) /\
  randoms_of (calls (translateAToB bump 27
                       (world_of (dotGridA bump harmonic 27 (@studio double))))) = [].
Proof.
  assert (Hw : tuned (@studio double)) by (split; reflexivity).
  destruct (@board_B_moves_what_board_A_shows bump harmonic 0 studio Hw)
    as (_ & _ & _ & Hr & Hn & _).
  cbn [Nat.add] in *.
  split; [exact Hw|]. split; [exact Hn|exact Hr].
Defined.




(** Adding the offset after the scaling would sample elsewhere: at the
    first center of board R with the offset 500, the sketch asks for the
    noise at (15.33, 10.2), not at (507.83, 500.2). *)
Lemma offset_after_scaling_differs :
  hd_error (noise_args (calls (dotGridR bump harmonic 27 (@studio double)))) =
    Some ((#522 + #500) * #0.015, (#10 + #500) * #0.02) /\
  ltb ((#522 + #500) * #0.015) (#16) = true /\
  ltb (#507) (#522 * #0.015 + #500) = true.
Proof. vm_compute. repeat split. Qed.

(** * Further properties of the sketch *)

(** ** Strokes, clicks and releases, for any numbers *)

Section Handlers.
Context {N : Number}.
Variable perlin : num -> num -> num.
Variable entropy : nat -> num.

Lemma bind_ext {A B} (m : M A) (k1 k2 : A -> M B) w :
  (forall a w', k1 a w' = k2 a w') -> bind m k1 w = bind m k2 w.
Proof.
  intros H. unfold bind. destruct (m w) as [[[a|] w1] o1]; [|reflexivity].
  now rewrite H.
Qed.

Lemma bind_assoc {A B C} (m : M A) (k : A -> M B) (h : B -> M C) w :
  bind (bind m k) h w = bind m (fun a => bind (k a) h) w.
Proof.
  unfold bind. destruct (m w) as [[[a|] w1] o1]; [|reflexivity].
  destruct (k a w1) as [[[b|] w2] o2]; [|reflexivity].
  destruct (h b w2) as [[r w3] o3]. now rewrite app_assoc.
Qed.

Lemma bind_world {A B} (m : M A) (k : A -> M B) w a :
  result (m w) = Some a -> world_of (bind m k w) = world_of (k a (world_of (m w))).
Proof.
  unfold bind. destruct (m w) as [[r w1] o1]. cbn. intros ->.
  now destruct (k a w1) as [[r2 w2] o2].
Qed.

Lemma session_app fuel es1 es2 w :
  session perlin entropy fuel (es1 ++ es2) w =
    bind (session perlin entropy fuel es1) (fun _ => session perlin entropy fuel es2) w.
Proof.
  revert w. induction es1 as [|e es1 IH]; intros w.
  - cbn [app session]. unfold bind, ret.
    now destruct (session perlin entropy fuel es2 w) as [[r w'] o].
  - cbn [app session]. rewrite bind_assoc. apply bind_ext. intros _ w'. apply IH.
Qed.

Lemma draw_captures p w :
  draw p w =
    (Some tt,
     (if captured p then set_drawing (drawing w ++ [point_of p]) w else w),
     (if captured p then trail p else [])).
Proof. unfold draw, captured. now destruct (_ && _ && _). Qed.

Lemma mousePressed_clicks t p w :
  mousePressed t p w =
    (Some tt,
     set_lastClickTime t
       (if double_click (doubleClickThreshold w) (lastClickTime w) t p
        then set_drawing [] w else w),
     (if double_click (doubleClickThreshold w) (lastClickTime w) t p
      then [NoStroke; Fill #255; Rect #0 #0 #512 #512] ++ board_calls else [])).
Proof.
  unfold mousePressed, double_click. rewrite !bind_gets.
  destruct (_ && _ && _).
  - erewrite bind_some; [|apply resetLeftSide_run|reflexivity].
    cbn [fst snd]. now rewrite app_nil_r.
  - reflexivity.
Qed.

Lemma set_drawing_same w : set_drawing (drawing w) w = w.
Proof. now destruct w. Qed.

Lemma reseeded_refl w : reseeded w w.
Proof. now repeat split. Qed.

Lemma reseeded_trans w1 w2 w3 : reseeded w1 w2 -> reseeded w2 w3 -> reseeded w1 w3.
Proof.
  unfold reseeded. intros (a1 & a2 & a3 & a4 & a5 & a6 & a7 & a8)
                          (b1 & b2 & b3 & b4 & b5 & b6 & b7 & b8).
  repeat split; congruence.
Qed.

(** Under any budget, a release changes nothing but the offsets and the
    number of random draws. *)
Lemma mouseReleased_reseeds fuel w :
  reseeded w (world_of (mouseReleased perlin entropy fuel w)).
Proof.
  unfold mouseReleased.
  destruct (dotGridR_any perlin entropy fuel w) as (r1 & o1 & H1 & _).
  set (w1 := set_offsetR (entropy (randomCalls w) * #1000) (next_random w)) in *.
  assert (R1 : reseeded w w1) by now repeat split.
  destruct r1 as [[]|]; [|erewrite bind_none by exact H1; exact R1].
  destruct (dotGridA_any perlin entropy fuel w1) as (r2 & o2 & H2 & _).
  set (w2 := set_offsetA (entropy (randomCalls w1) * #1000) (next_random w1)) in *.
  assert (R2 : reseeded w w2) by now repeat split.
  destruct (@translateAToB_agree _ perlin fuel w2 w2 eq_refl eq_refl eq_refl eq_refl)
    as (r3 & o3 & H3 & _).
  assert (E : exists r o, (f perlin ;; dotGridA perlin entropy fuel ;;
                           translateAToB perlin fuel) w1 = (r, w2, o)).
  { destruct r2 as [[]|].
    - eexists _, _. eapply bind_some; [apply (f_run perlin w1)|].
      eapply bind_some; [exact H2|exact H3].
    - eexists _, _. eapply bind_some; [apply (f_run perlin w1)|].
      apply bind_none. exact H2. }
  destruct E as (r & o & E).
  erewrite bind_some; [|exact H1|exact E]. exact R2.
Qed.

(** X1.  While only frames arrive, every handler ends and the stroke grows
    by exactly the captured pointer positions, in order and at its end;
    nothing else changes, and the only calls are the three that draw each
    captured step on board L.  A frame with the button up, or with the
    pointer right of or below board L, leaves no trace at all; there is no
    test on the left and upper sides. *)
Theorem frames_capture_the_stroke (fuel : nat) (ps : list Pointer) (w : World) :
  let r := session perlin entropy fuel (map Frame ps) w in
  let kept := filter captured ps in
  result r = Some tt /\
  world_of r = set_drawing (drawing w ++ map point_of kept) w /\
  calls r = flat_map trail kept.
Proof.
  cbv zeta. revert w. induction ps as [|p ps IH]; intros w.
  - cbn. now rewrite app_nil_r, set_drawing_same.
  - cbn [map session handle filter].
    destruct (IH (if captured p then set_drawing (drawing w ++ [point_of p]) w else w))
      as (Hr & Hw & Hc).
    unfold bind. rewrite draw_captures.
    destruct (session perlin entropy fuel (map Frame ps)
                (if captured p then set_drawing (drawing w ++ [point_of p]) w else w))
      as [[r w'] o] eqn:E.
    cbn [result world_of calls fst snd] in *. subst r w' o.
    destruct (captured p); cbn [map flat_map drawing set_drawing app].
    + now rewrite <- app_assoc.
    + now repeat split.
Qed.

(** *** What the handlers keep *)

Lemma handle_reseeds_or_edits fuel e w :
  let w' := world_of (handle perlin entropy fuel e w) in
  xScale w' = xScale w /\ yScale w' = yScale w /\ gap w' = gap w /\
  doubleClickThreshold w' = doubleClickThreshold w /\
  width w' = width w /\ height w' = height w /\
  (is_press e = false -> lastClickTime w' = lastClickTime w).
Proof.
  destruct e as [p|t p|]; cbn [handle is_press].
  - rewrite draw_captures. cbn [world_of fst snd]. now destruct (captured p).
  - rewrite mousePressed_clicks. cbn [world_of fst snd].
    destruct (double_click _ _ _ _); repeat split; discriminate.
  - destruct (mouseReleased_reseeds fuel w) as (a1 & a2 & a3 & a4 & a5 & a6 & a7 & a8).
    now repeat split.
Qed.

Lemma session_keeps (Inv : World -> Prop) fuel es :
  (forall e w, In e es -> Inv w -> Inv (world_of (handle perlin entropy fuel e w))) ->
  forall w, Inv w -> Inv (world_of (session perlin entropy fuel es w)).
Proof.
  induction es as [|e es IH]; intros Hstep w Hw; [exact Hw|].
  cbn [session]. assert (He := Hstep e w (or_introl eq_refl) Hw).
  unfold bind. destruct (handle perlin entropy fuel e w) as [[[[]|] w1] o1]; [|exact He].
  assert (Hs := IH (fun e' w' H => Hstep e' w' (or_intror H)) w1 He).
  destruct (session perlin entropy fuel es w1) as [[r w2] o2]. exact Hs.
Qed.

Lemma setup_canvas fuel w :
  reseeded (set_canvas #1024 #1536 w) (world_of (setup perlin entropy fuel w)).
Proof.
  unfold setup.
  set (w0 := set_canvas #1024 #1536 w).
  destruct (dotGridR_any perlin entropy fuel w0) as (r1 & o1 & H1 & _).
  set (w1 := set_offsetR (entropy (randomCalls w0) * #1000) (next_random w0)) in *.
  assert (Hc : createCanvas #1024 #1536 w = (Some tt, w0, [CreateCanvas #1024 #1536]))
    by reflexivity.
  destruct r1 as [[]|].
  - destruct (dotGridA_any perlin entropy fuel w1) as (r2 & o2 & H2 & _).
    assert (E : exists o, setup perlin entropy fuel w =
                  (r2, set_offsetA (entropy (randomCalls w1) * #1000) (next_random w1), o)).
    { eexists. eapply bind_some; [exact Hc|]. eapply bind_some; [reflexivity|].
      eapply bind_some; [apply drawBoard_run|]. eapply bind_some; [exact H1|exact H2]. }
    destruct E as (o & E). unfold setup in E. rewrite E. now repeat split.
  - assert (E : exists o, setup perlin entropy fuel w = (None, w1, o)).
    { eexists. eapply bind_some; [exact Hc|]. eapply bind_some; [reflexivity|].
      eapply bind_some; [apply drawBoard_run|]. apply bind_none. exact H1. }
    destruct E as (o & E). unfold setup in E. rewrite E. now repeat split.
Qed.

(** X2.  Whatever the events and the budget, and whether or not the page
    gets to the end of them, the scales, the gap, the double-click threshold
    and the canvas size stay what lines 2-6, 12 and 15 make them: no handler
    assigns any of them. *)
Theorem page_keeps_configuration (fuel : nat) (es : list Event) :
  configured (world_of (run_page perlin entropy fuel es)).
Proof.
  assert (Hstep : forall e w, configured w ->
                    configured (world_of (handle perlin entropy fuel e w))).
  { intros e w (c1 & c2 & c3 & c4 & c5 & c6).
    destruct (handle_reseeds_or_edits fuel e w) as (a1 & a2 & a3 & a4 & a5 & a6 & _).
    repeat split; congruence. }
  unfold run_page.
  destruct (setup_canvas fuel initial) as (a1 & a2 & a3 & _ & _ & a6 & a7 & a8).
  assert (H0 : configured (world_of (setup perlin entropy fuel initial))).
  { repeat split; [rewrite a1|rewrite a2|rewrite a3|rewrite a6|rewrite a7|rewrite a8];
      reflexivity. }
  unfold bind. destruct (setup perlin entropy fuel initial) as [[[[]|] w0] o0]; [|exact H0].
  assert (Hs := @session_keeps configured fuel es (fun e w _ => Hstep e w) w0 H0).
  destruct (session perlin entropy fuel es w0) as [[r w1] o1]. exact Hs.
Qed.

Lemma session_keeps_clock fuel es :
  existsb is_press es = false ->
  forall w,
    lastClickTime (world_of (session perlin entropy fuel es w)) = lastClickTime w /\
    doubleClickThreshold (world_of (session perlin entropy fuel es w)) = doubleClickThreshold w.
Proof.
  intros Hes w.
  apply (@session_keeps
           (fun w' => lastClickTime w' = lastClickTime w /\
                      doubleClickThreshold w' = doubleClickThreshold w) fuel es);
    [|now split].
  intros e w' He [H1 H2].
  destruct (handle_reseeds_or_edits fuel e w') as (_ & _ & _ & a4 & _ & _ & a7).
  assert (Hp : is_press e = false).
  { destruct (is_press e) eqn:E; [|reflexivity].
    assert (X : existsb is_press es = true) by (apply existsb_exists; now exists e).
    congruence. }
  split; [rewrite (a7 Hp)|rewrite a4]; assumption.
Qed.

End Handlers.

(** ** Whole sessions, on doubles *)

Section Sessions.
Variable perlin : @num double -> @num double -> @num double.
Variable entropy : nat -> @num double.

Lemma release_world k (w : @World double) :
  tuned w ->
  world_of (mouseReleased perlin entropy (27 + k) w) =
    set_offsetA (entropy (S (randomCalls w)) * #1000)
      (next_random (set_offsetR (entropy (randomCalls w) * #1000) (next_random w))).
Proof.
  intros Hw.
  now rewrite (@mouseReleased_run _ perlin entropy _ w _ _
                 (tuned_columns k Hw) (tuned_rows k Hw)).
Qed.


(** X3.  With the sketch's gap and canvas, as long as no button press
    arrives, every handler ends and the stroke only grows: it is the stroke
    before followed by the pointer positions the frames captured, in order.
    A release never empties it, so the points of separate drags end up in
    one stroke, which the next release hands to [f] as a whole. *)
Theorem strokes_accumulate_across_releases (k : nat) (es : list (@Event double)) (w : @World double) :
  tuned w ->
  existsb is_press es = false ->
  result (session perlin entropy (27 + k) es w) = Some tt /\
  drawing (world_of (session perlin entropy (27 + k) es w)) = drawing w ++ captures es.
Proof.
  intros Hw Hes. split; [now apply session_runs|].
  revert w Hw. induction es as [|e es IH]; intros w Hw.
  - cbn. now rewrite app_nil_r.
  - cbn [existsb] in Hes. apply orb_false_iff in Hes. destruct Hes as [He Hes].
    cbn [session]. erewrite bind_world by exact (handle_runs perlin entropy k e Hw).
    rewrite (IH Hes _ (handle_tuned perlin entropy (27 + k) e Hw)).
    destruct e as [p|t p|]; [| discriminate He |]; cbn [handle captures flat_map].
    + rewrite draw_captures. cbn [world_of fst snd].
      destruct (captured p); cbn [drawing set_drawing app]; [|reflexivity].
      now rewrite <- app_assoc.
    + now rewrite (release_world k Hw).
Qed.

(** X4.  With the sketch's gap and canvas, a double click is measured from
    one press to the next, whatever frames and releases come in between:
    after a press at [t1] and a press at [t2], the stroke is empty when
    [t2 - t1] is under the threshold and the second press is not right of nor
    below board L, and is otherwise what it was before the second press.
    Where the first press fell does not matter. *)
Theorem second_press_decides_the_reset (k : nat) (es : list (@Event double))
    (t1 t2 : @num double) (p1 p2 : @Pointer double) (w : @World double) :
  tuned w ->
  existsb is_press es = false ->
  let fuel := (27 + k)%nat in
  let before := session perlin entropy fuel (Press t1 p1 :: es) w in
  let r := session perlin entropy fuel (Press t1 p1 :: es ++ [Press t2 p2]) w in
  result r = Some tt /\
  lastClickTime (world_of r) = t2 /\
  drawing (world_of r) =
    if double_click (doubleClickThreshold w) t1 t2 p2 then []
    else drawing (world_of before).
Proof.
  intros Hw Hes fuel before r.
  assert (Hb : result before = Some tt) by (apply session_runs; exact Hw).
  assert (Er : r = bind (session perlin entropy fuel (Press t1 p1 :: es))
                        (fun _ => session perlin entropy fuel [Press t2 p2]) w).
  { unfold r. rewrite app_comm_cons. apply session_app. }
  fold before in Er.
  assert (Hclock : lastClickTime (world_of before) = t1 /\
                   doubleClickThreshold (world_of before) = doubleClickThreshold w).
  { unfold before. cbn [session handle].
    erewrite bind_world by (rewrite mousePressed_clicks; reflexivity).
    destruct (session_keeps_clock perlin entropy fuel es Hes
                (world_of (mousePressed t1 p1 w))) as [H1 H2].
    rewrite H1, H2, mousePressed_clicks. cbn.
    now destruct (double_click _ _ _ _). }
  destruct Hclock as [Ht Hth].
  assert (Elast : session perlin entropy fuel [Press t2 p2] (world_of before) =
                  mousePressed t2 p2 (world_of before)).
  { cbn [session handle]. unfold bind, ret.
    now destruct (mousePressed t2 p2 (world_of before)) as [[[[]|] w'] o];
      rewrite ?app_nil_r. }
  split; [|split].
  - rewrite Er. erewrite bind_result by exact Hb. cbv beta. fold before.
    now rewrite Elast, mousePressed_clicks.
  - rewrite Er. erewrite bind_world by exact Hb. cbv beta. fold before.
    now rewrite Elast, mousePressed_clicks.
  - rewrite Er. erewrite bind_world by exact Hb. cbv beta. fold before.
    rewrite Elast, mousePressed_clicks, Ht, Hth. cbn [world_of fst snd].
    now destruct (double_click _ _ _ _).
Qed.



End Sessions.

(** ** The segments of board B *)

Section Polyline.
Context {N : Number}.
Variable perlin : num -> num -> num.




End Polyline.

(** ** Nothing leaves its board, in exact arithmetic *)

Section Boards.
Variable perlin : Q -> Q -> Q.
Variable entropy : nat -> Q.
Hypothesis perlin_range : forall a b, (0 <= perlin a b < 1)%Q.

Ltac exact_arith :=
  cbn [add sub mul div lit exact];
  rewrite ?Qred_correct;
  unfold Qdiv;
  try setoid_replace (Qinv 2) with (Qmake 1 2) by reflexivity;
  try setoid_replace (Qinv 3) with (Qmake 1 3) by reflexivity;
  lra.










End Boards.

(** ** The draft against the final sketch *)

Section SameLoops.
Context {N : Number}.

(** Two loops that agree on their bound, their step and their body at a
    world their bodies leave alone do the same there. *)
Lemma for_lt_same {S} (bound1 bound2 step1 step2 : World -> num)
    (body1 body2 : num -> S -> M S) w :
  bound1 w = bound2 w -> step1 w = step2 w ->
  (forall x s, body1 x s w = body2 x s w) ->
  (forall x s, world_of (body2 x s w) = w) ->
  forall fuel v s,
    for_lt fuel bound1 step1 body1 v s w = for_lt fuel bound2 step2 body2 v s w.
Proof.
  intros Hb Hs Hbody Hw fuel. induction fuel as [|k IH]; intros v s; [reflexivity|].
  rewrite !for_lt_turn, Hb. destruct (v <? bound2 w); [|reflexivity].
  unfold bind. rewrite Hbody. specialize (Hw v s).
  destruct (body2 v s w) as [[[s'|] w'] o]; [|reflexivity].
  cbn in Hw. subst w'. now rewrite Hs, IH.
Qed.

Lemma raised_bind {A B} (m1 m2 : M A) (k1 k2 : A -> M B) w :
  m1 w = raised (m2 w) ->
  (forall a, result (m2 w) = Some a ->
     k1 a (world_of (m2 w)) = raised (k2 a (world_of (m2 w)))) ->
  bind m1 k1 w = raised (bind m2 k2 w).
Proof.
  unfold bind, raised. intros H1 H2. rewrite H1.
  destruct (m2 w) as [[[a|] w1] o1]; cbn [result world_of calls fst snd] in *; [|reflexivity].
  rewrite (H2 a eq_refl).
  destruct (k2 a w1) as [[r w2] o2]. cbn. now rewrite map_app.
Qed.

Lemma raised_same {A} (r : option A * World * list Call) :
  Forall (fun c => raise_label c = c) (calls r) -> raised r = r.
Proof.
  destruct r as [[a w] o]. unfold raised. cbn. intros H. f_equal.
  induction H as [|c o Hc _ IH]; [reflexivity|]. cbn. now rewrite Hc, IH.
Qed.

Lemma bind_same {A B} (m : M A) (k1 k2 : A -> M B) w :
  (forall a w1 o, m w = (Some a, w1, o) -> k1 a w1 = k2 a w1) ->
  bind m k1 w = bind m k2 w.
Proof.
  intros H. unfold bind. destruct (m w) as [[[a|] w1] o1]; [|reflexivity].
  now rewrite (H a w1 o1 eq_refl).
Qed.

Lemma bind_cong {A B} (m1 m2 : M A) (k1 k2 : A -> M B) w :
  m1 w = m2 w -> (forall a w', k1 a w' = k2 a w') -> bind m1 k1 w = bind m2 k2 w.
Proof.
  intros Hm Hk. unfold bind. rewrite Hm.
  destruct (m2 w) as [[[a|] w1] o1]; [|reflexivity]. now rewrite Hk.
Qed.

Lemma bind_calls_Forall {A B} (P : Call -> Prop) (m : M A) (k : A -> M B) w :
  Forall P (calls (m w)) -> (forall a w', Forall P (calls (k a w'))) ->
  Forall P (calls (bind m k w)).
Proof.
  intros Hm Hk. unfold bind. destruct (m w) as [[[a|] w1] o1]; [|exact Hm].
  specialize (Hk a w1). destruct (k a w1) as [[r w2] o2]. cbn in *.
  apply Forall_app. now split.
Qed.

Section Plain.
Variable perlin : num -> num -> num.
Variable entropy : nat -> num.

Lemma stroke_calls_plain o sx sy pts : forall prev,
  Forall (fun c => raise_label c = c) (stroke_calls perlin o sx sy prev pts).
Proof.
  induction pts as [|p pts IH]; intros prev; [constructor|].
  cbn [stroke_calls]. constructor; [reflexivity|].
  apply Forall_app. split; [|apply IH].
  destruct prev; repeat constructor.
Qed.

Lemma dot_call_plain g (o : list Call) :
  Forall (dot_call perlin g) o -> Forall (fun c => raise_label c = c) o.
Proof. apply Forall_impl. intros c Hc. now destruct c. Qed.

(** No label is written while the pointer is released. *)
Lemma translateAToB_plain fuel w :
  Forall (fun c => raise_label c = c) (calls (translateAToB perlin fuel w)).
Proof.
  unfold translateAToB, fill, rect. rewrite !bind_call. cbn [calls snd].
  constructor; [reflexivity|]. constructor; [reflexivity|].
  rewrite bind_gets.
  match goal with
  | |- context [for_lt fuel ?b gap ?body _ _] =>
      destruct (@for_lt_agree _ _ (fun c => raise_label c = c) b gap body w w eq_refl eq_refl)
        with (fuel := fuel) (v := #512 + gap w / #2) (s := (@None num, @None num))
        as (r & o & H1 & _ & HP)
  end.
  - intros x s. rewrite !bind_gets.
    apply for_lt_agree; trivial.
    intros y prev. rewrite !translate_turn_run.
    eexists _, _. repeat split.
    unfold translate_turn. destruct (to_boolean (fst prev) && to_boolean (snd prev));
      repeat constructor.
  - destruct r as [s|].
    + erewrite bind_some; [|exact H1|reflexivity]. cbn [calls snd].
      rewrite app_nil_r. exact HP.
    + erewrite bind_none; [|exact H1]. exact HP.
Qed.

Lemma mouseReleased_plain fuel w :
  Forall (fun c => raise_label c = c) (calls (mouseReleased perlin entropy fuel w)).
Proof.
  unfold mouseReleased.
  apply bind_calls_Forall.
  { destruct (dotGridR_any perlin entropy fuel w) as (r & o & -> & Ho).
    cbn [calls snd]. apply Forall_app. split; [repeat constructor|].
    constructor; [reflexivity|]. now apply dot_call_plain with (g := gap w). }
  intros _ w1. apply bind_calls_Forall.
  { rewrite f_run. cbn [calls snd]. apply Forall_app. split; [repeat constructor|].
    apply stroke_calls_plain. }
  intros _ w2. apply bind_calls_Forall.
  { destruct (dotGridA_any perlin entropy fuel w2) as (r & o & -> & Ho).
    cbn [calls snd]. apply Forall_app. split; [repeat constructor|].
    constructor; [reflexivity|]. now apply dot_call_plain with (g := gap w2). }
  intros _ w3. apply translateAToB_plain.
Qed.

End Plain.

End SameLoops.

Section DraftOnDoubles.
Variable perlin : @num double -> @num double -> @num double.
Variable entropy : nat -> @num double.

Lemma draft_f_loop (pts : list (@Point double)) : forall i px py w,
  Draft.f_loop perlin i pts px py w = f_loop perlin i pts px py w.
Proof.
  induction pts as [|p pts IH]; intros i px py w; [reflexivity|].
  cbn [Draft.f_loop f_loop].
  repeat (apply bind_ext; intros).
  apply IH.
Qed.

Lemma draft_f (w : @World double) : Draft.f perlin w = f perlin w.
Proof.
  unfold Draft.f, f. repeat (apply bind_ext; intros). apply draft_f_loop.
Qed.

(** The rows of board R end at [sectionSize] in the draft and at
    [height / 3] in the final sketch: the same bound on a canvas 1536 high. *)
Lemma draft_dotGridR fuel (w : @World double) :
  height w = #1536 ->
  Draft.dotGridR perlin entropy fuel w = dotGridR perlin entropy fuel w.
Proof.
  intros Hh. unfold Draft.dotGridR, dotGridR, noStroke, fill, rect.
  do 5 (apply bind_same; intros [] w1 o1 E; injection E as <- _; clear o1).
  apply bind_same. intros r w1 o1 E. injection E as _ <- _. clear o1.
  apply bind_same. intros [] w2 o2 E. injection E as <- _. clear o2.
  rewrite !bind_gets.
  set (w' := set_offsetR r (next_random w)).
  apply for_lt_same; try reflexivity.
  - intros x []. rewrite !bind_gets. apply for_lt_same; try reflexivity.
    change (height w') with (height w). now rewrite Hh.
  - intros x []. rewrite bind_gets.
    match goal with
    | |- context [for_lt fuel ?b gap ?body _ _] =>
        destruct (@for_lt_agree _ _ (fun _ => True) b gap body w' w' eq_refl eq_refl)
          with (fuel := fuel) (v := gap w' / #2) (s := tt) as (r' & o' & -> & _)
    end; [|reflexivity].
    intros y []. eexists _, _. repeat split. repeat constructor.
Qed.

Lemma draft_mouseReleased fuel (w : @World double) :
  height w = #1536 ->
  Draft.mouseReleased perlin entropy fuel w = mouseReleased perlin entropy fuel w.
Proof.
  intros Hh. unfold Draft.mouseReleased, mouseReleased.
  apply bind_cong; [now apply draft_dotGridR|]. intros _ w1.
  apply bind_cong; [apply draft_f|]. intros _ w2. reflexivity.
Qed.

Lemma draft_handle fuel (e : @Event double) (w : @World double) :
  height w = #1536 ->
  Draft.handle perlin entropy fuel e w = raised (handle perlin entropy fuel e w).
Proof.
  intros Hh. destruct e as [p|t p|]; cbn [Draft.handle handle].
  - change (Draft.draw p w) with (draw p w). symmetry. apply raised_same.
    rewrite draw_captures. cbn [calls snd]. destruct (captured p); repeat constructor.
  - unfold Draft.mousePressed, mousePressed. rewrite !bind_gets.
    change ((t - lastClickTime w <? doubleClickThreshold w)
            && (mouseX p <=? Draft.sectionSize) && (mouseY p <=? Draft.sectionSize))
      with (double_click (doubleClickThreshold w) (lastClickTime w) t p).
    change ((t - lastClickTime w <? doubleClickThreshold w)
            && (mouseX p <=? #512) && (mouseY p <=? #512))
      with (double_click (doubleClickThreshold w) (lastClickTime w) t p).
    destruct (double_click _ _ _ _); reflexivity.
  - rewrite (draft_mouseReleased fuel w Hh). symmetry. apply raised_same.
    apply mouseReleased_plain.
Qed.

Lemma draft_session fuel (es : list (@Event double)) : forall w : @World double,
  height w = #1536 ->
  Draft.session perlin entropy fuel es w = raised (session perlin entropy fuel es w).
Proof.
  induction es as [|e es IH]; intros w Hh; [reflexivity|].
  cbn [Draft.session session]. apply raised_bind; [now apply draft_handle|].
  intros [] _. apply IH.
  destruct (handle_reseeds_or_edits perlin entropy fuel e w) as (_ & _ & _ & _ & _ & H & _).
  now rewrite H.
Qed.

Lemma draft_setup fuel :
  Draft.setup perlin entropy fuel (@initial double) =
    raised (setup perlin entropy fuel (@initial double)).
Proof.
  unfold Draft.setup, setup.
  apply raised_bind; [reflexivity|]. intros [] _.
  apply raised_bind; [reflexivity|]. intros [] _.
  apply raised_bind; [reflexivity|]. intros [] _.
  set (w0 := world_of (drawBoard (world_of (background #255
               (world_of (createCanvas #1024 #1536 (@initial double))))))).
  assert (H0 : height w0 = #1536) by reflexivity.
  apply raised_bind.
  - rewrite (draft_dotGridR fuel w0 H0). symmetry. apply raised_same.
    destruct (dotGridR_any perlin entropy fuel w0) as (r & o & -> & Ho).
    cbn [calls snd]. apply Forall_app. split; [repeat constructor|].
    constructor; [reflexivity|]. now apply dot_call_plain with (perlin := perlin) (g := gap w0).
  - intros [] _. change (Draft.dotGridA perlin entropy fuel) with (dotGridA perlin entropy fuel).
    symmetry. apply raised_same.
    match goal with
    | |- context [dotGridA perlin entropy fuel ?w1] =>
        destruct (dotGridA_any perlin entropy fuel w1) as (r & o & -> & Ho);
        cbn [calls snd]; apply Forall_app; split; [repeat constructor|];
        constructor; [reflexivity|];
        now apply dot_call_plain with (perlin := perlin) (g := gap w1)
    end.
Qed.

(** X8.  On doubles, for every sequence of events and every budget, the
    draft with its named sizes leaves the same worlds and makes the same
    calls, in the same order, as the final sketch, with one difference: it
    writes each of the five labels 10 higher (at [textPadding * 4 = 40]
    below its board's top where the final sketch has 50).  In particular the
    rows of board R, bounded by [sectionSize] there and by [height / 3]
    here, are the same. *)
Theorem draft_is_the_final_sketch_but_for_its_labels (fuel : nat)
    (es : list (@Event double)) :
  Draft.run_page perlin entropy fuel es = raised (run_page perlin entropy fuel es).
Proof.
  unfold Draft.run_page, run_page. change (@Draft.initial double) with (@initial double).
  apply raised_bind; [apply draft_setup|].
  intros [] _. apply draft_session.
  destruct (setup_canvas perlin entropy fuel (@initial double))
    as (_ & _ & _ & _ & _ & _ & _ & H).
  rewrite H. reflexivity.
Qed.

End DraftOnDoubles.

(** ** The first version against the final sketch *)

Section FirstVersion.
Context {N : Number}.
Variable perlin : num -> num -> num.
Variable entropy : nat -> num.

Lemma first_f_loop_defined pts : forall i prev w,
  (i = 0 <-> prev = None) ->
  First.f_loop perlin i pts (option_map pt_x prev) (option_map pt_y prev) w =
    (Some tt, w, First.stroke_calls perlin (offsetR w) (xScale w) (yScale w) prev pts).
Proof.
  induction pts as [|p rest IH]; intros i prev w Hi; [reflexivity|].
  cbn [First.f_loop First.stroke_calls].
  set (q := displace perlin (offsetR w) (xScale w) (yScale w) p).
  assert (Hnext : (S i = 0 <-> Some q = None)) by (split; discriminate).
  specialize (IH (S i) (Some q) w Hnext). cbn [option_map] in IH.
  destruct prev as [q0|]; destruct i as [|i];
    try (exfalso; destruct Hi as [H1 H2]; (now discriminate H1) || (now discriminate H2)).
  - unfold bind, gets, noise, stroke, strokeWeight, line, call, ret, First.offset. cbn.
    unfold q, displace, sample in IH. cbn in IH. rewrite IH. reflexivity.
  - unfold bind, gets, noise, stroke, strokeWeight, line, call, ret, First.offset. cbn.
    unfold q, displace, sample in IH. cbn in IH. rewrite IH. reflexivity.
Qed.

Lemma first_f_run w :
  First.f perlin w =
    (Some tt, w,
     First.clear_P
     ++ First.stroke_calls perlin (offsetR w) (xScale w) (yScale w) None (drawing w)).
Proof.
  assert (H := @first_f_loop_defined (drawing w) 0 None w). cbn [option_map] in H.
  unfold First.f, bind, fill, rect, gets, call. cbn. rewrite H; [reflexivity|tauto].
Qed.

Lemma first_stroke_calls_noise o sx sy pts : forall prev,
  noise_args (First.stroke_calls perlin o sx sy prev pts) =
    map (fun p => sample_at o sx sy (pt_x p) (pt_y p)) pts.
Proof.
  induction pts as [|p rest IH]; intros prev; [reflexivity|].
  cbn [First.stroke_calls map]. change (?c :: ?l ++ ?r) with ([c] ++ l ++ r).
  rewrite !noise_args_app, IH. now destruct prev.
Qed.

Lemma first_stroke_calls_lines o sx sy pts : forall prev,
  lines_of (First.stroke_calls perlin o sx sy prev pts) =
    segments (map First.onto_P (match prev with Some q => [q] | None => [] end
                                ++ transformStroke perlin pts o sx sy)).
Proof.
  induction pts as [|p rest IH]; intros prev.
  - now destruct prev.
  - cbn [First.stroke_calls]. change (?c :: ?l ++ ?r) with ([c] ++ l ++ r).
    rewrite !lines_of_app, IH. now destruct prev.
Qed.

(** X9.  The first version's [f] always ends, leaves the globals alone and
    moves the stroke exactly as the final [f] does: it samples the noise at
    the same places and joins the same displaced points.  What differs is
    where the result is shown, 1024 to the right of the stroke there and
    512 below it in the final sketch. *)
Theorem first_f_displaces_as_the_final_f (w : World) :
  let moved := transformStroke perlin (drawing w) (offsetR w) (xScale w) (yScale w) in
  First.f perlin w = (Some tt, w, calls (First.f perlin w)) /\
  noise_args (calls (First.f perlin w)) = noise_args (calls (f perlin w)) /\
  lines_of (calls (First.f perlin w)) = segments (map First.onto_P moved) /\
  lines_of (calls (f perlin w)) = segments (map onto_P moved).
Proof.
  intros moved. rewrite first_f_run, f_run. cbn [calls snd].
  split; [reflexivity|]. split; [|split].
  - rewrite !noise_args_app, first_stroke_calls_noise, stroke_calls_noise. reflexivity.
  - rewrite lines_of_app, first_stroke_calls_lines. reflexivity.
  - rewrite lines_of_app, stroke_calls_lines. reflexivity.
Qed.

Lemma first_draw_captures p w :
  First.draw p w =
    (Some tt,
     (if First.captured p then set_drawing (drawing w ++ [point_of p]) w else w),
     (if First.captured p then First.trail p else [])).
Proof. unfold First.draw, First.captured. now destruct (_ && _). Qed.

(** The dot loops read their lower bound only where they run. *)
Lemma dot_loops_same (offset ybound1 ybound2 : World -> num) (ystart : num -> num) w :
  ybound1 w = ybound2 w ->
  forall fuel x0,
    for_lt fuel (fun _ => #1024) gap (fun x _ =>
      g <- gets gap ;;
      for_lt fuel ybound1 gap (fun y _ =>
        o <- gets offset ;;
        sx <- gets xScale ;;
        sy <- gets yScale ;;
        noiseValue <- noise perlin ((x + o) * sx) ((y + o) * sy) ;;
        g <- gets gap ;;
        let diameter := noiseValue * g in
        circle x y diameter)
      (ystart g) tt) x0 tt w =
    for_lt fuel (fun _ => #1024) gap (fun x _ =>
      g <- gets gap ;;
      for_lt fuel ybound2 gap (fun y _ =>
        o <- gets offset ;;
        sx <- gets xScale ;;
        sy <- gets yScale ;;
        noiseValue <- noise perlin ((x + o) * sx) ((y + o) * sy) ;;
        g <- gets gap ;;
        let diameter := noiseValue * g in
        circle x y diameter)
      (ystart g) tt) x0 tt w.
Proof.
  intros Hb fuel x0. apply for_lt_same; try reflexivity.
  - intros x []. rewrite !bind_gets. now apply for_lt_same.
  - intros x []. rewrite bind_gets.
    match goal with
    | |- context [for_lt fuel ?b gap ?body _ _] =>
        destruct (@for_lt_agree _ _ (fun _ => True) b gap body w w eq_refl eq_refl)
          with (fuel := fuel) (v := ystart (gap w)) (s := tt) as (r' & o' & -> & _)
    end; [|reflexivity].
    intros y []. eexists _, _. repeat split. repeat constructor.
Qed.

(** The first version's grid and the final board R, each on its own
    canvas. *)
Lemma first_dotGrid_across fuel w1 w2 :
  gap w1 = gap w2 -> xScale w1 = xScale w2 -> yScale w1 = yScale w2 ->
  randomCalls w1 = randomCalls w2 -> height w1 = height w2 / #3 ->
  exists r o,
    First.dotGrid perlin entropy fuel w1 =
      (r, set_offsetR (entropy (randomCalls w1) * #1000) (next_random w1),
       clear_R ++ Random #1000 :: o) /\
    dotGridR perlin entropy fuel w2 =
      (r, set_offsetR (entropy (randomCalls w2) * #1000) (next_random w2),
       clear_R ++ Random #1000 :: o).
Proof.
  intros Hg Hsx Hsy Hn Hh.
  set (w1' := set_offsetR (entropy (randomCalls w1) * #1000) (next_random w1)).
  set (w2' := set_offsetR (entropy (randomCalls w2) * #1000) (next_random w2)).
  assert (Ho : offsetR w1' = offsetR w2') by (cbn; now rewrite Hn).
  destruct (@dot_loops_agree _ perlin offsetR (fun _ => height w1) (fun g => g / #2)
              w1' w2' Hg Hsx Hsy Ho eq_refl fuel (#512 + gap w1 / #2))
    as (r & o & H1 & H2 & _).
  rewrite (@dot_loops_same offsetR (fun _ => height w1) height (fun g => g / #2) w1' eq_refl)
    in H1.
  rewrite (@dot_loops_same offsetR (fun _ => height w1) (fun w => height w / #3)
             (fun g => g / #2) w2' Hh) in H2.
  exists r, o. split.
  - unfold First.dotGrid, First.set_offset, First.offset,
      bind, noStroke, fill, rect, random, modify, gets, call. cbn.
    fold w1'. change (gap w1') with (gap w1).
    unfold bind, gets in H1. cbn in H1. rewrite H1. reflexivity.
  - unfold dotGridR, bind, noStroke, fill, rect, random, modify, gets, call. cbn.
    fold w2'. change (gap w2') with (gap w2). rewrite <- Hg.
    unfold bind, gets in H2. cbn in H2. rewrite H2. reflexivity.
Qed.

Lemma first_dotGrid_run fuel w cols rows :
  range_lt fuel (#512 + gap w / #2) #1024 (gap w) = Some cols ->
  range_lt fuel (gap w / #2) (height w) (gap w) = Some rows ->
  First.dotGrid perlin entropy fuel w =
    (Some tt,
     set_offsetR (entropy (randomCalls w) * #1000) (next_random w),
     clear_R ++ Random #1000
       :: flat_map (dot_calls perlin (entropy (randomCalls w) * #1000)
                              (xScale w) (yScale w) (gap w)) (cells cols rows)).
Proof.
  intros Hcols Hrows.
  set (w' := set_offsetR (entropy (randomCalls w) * #1000) (next_random w)).
  assert (H := @dot_loops_run _ perlin offsetR height (fun g => g / #2)
                 fuel w' (#512 + gap w / #2) cols rows Hcols Hrows).
  unfold First.dotGrid, First.set_offset, First.offset,
    bind, noStroke, fill, rect, random, modify, gets, call. cbn.
  fold w'. change (gap w') with (gap w).
  unfold bind, gets in H. cbn in H. rewrite H. reflexivity.
Qed.

End FirstVersion.

Section FirstOnDoubles.
Variable perlin : @num double -> @num double -> @num double.
Variable entropy : nat -> @num double.

(** X10.  On doubles, under any budget and from any globals, the dot grid
    of the first version on its canvas of 1536 by 512 is board R of the
    final sketch on its canvas of 1024 by 1536: the same calls in the same
    order, the same new offset, and both loops end or run out together.
    The rows stop at [height] there and at [height / 3] here. *)
Theorem first_grid_is_board_R (fuel : nat) (w : @World double) :
  let first := First.dotGrid perlin entropy fuel (set_canvas #1536 #512 w) in
  let final := dotGridR perlin entropy fuel (set_canvas #1024 #1536 w) in
  result first = result final /\
  calls first = calls final /\
  world_of first = set_canvas #1536 #512 (world_of final).
Proof.
  intros first final.
  destruct (@first_dotGrid_across double perlin entropy fuel
              (set_canvas #1536 #512 w) (set_canvas #1024 #1536 w)
              eq_refl eq_refl eq_refl eq_refl eq_refl) as (r & o & H1 & H2).
  unfold first, final. rewrite H1, H2. now repeat split.
Qed.

Lemma first_rows :
  range_lt (N := double) 27 (#20 / #2) #512 #20 = Some (ticks 10 26).
Proof. vm_compute. reflexivity. Qed.

Lemma first_dotGrid_ends k (w : @World double) :
  gap w = #20 -> height w = #512 ->
  First.dotGrid perlin entropy (27 + k) w =
    (Some tt,
     set_offsetR (entropy (randomCalls w) * #1000) (next_random w),
     clear_R ++ Random #1000
       :: flat_map (dot_calls perlin (entropy (randomCalls w) * #1000)
                              (xScale w) (yScale w) (gap w))
                   (cells (ticks 522 26) (ticks 10 26))).
Proof.
  intros Hg Hh. apply first_dotGrid_run.
  - rewrite Hg. apply range_lt_more, double_columns.
  - rewrite Hg, Hh. apply range_lt_more, first_rows.
Qed.

Lemma first_handle k (e : @Event double) (w : @World double) :
  gap w = #20 -> height w = #512 ->
  let r := First.handle perlin entropy (27 + k) e w in
  result r = Some tt /\ gap (world_of r) = #20 /\ height (world_of r) = #512 /\
  drawing (world_of r) = drawing w ++ First.captures [e].
Proof.
  intros Hg Hh. destruct e as [p|t p|]; cbn [First.handle First.captures flat_map].
  - rewrite first_draw_captures. cbv zeta. cbn [result world_of fst snd].
    destruct (First.captured p); cbn; rewrite ?app_nil_r; now repeat split.
  - cbn. rewrite app_nil_r. now repeat split.
  - unfold First.mouseReleased. cbv zeta.
    erewrite bind_some; [|now apply first_dotGrid_ends|apply first_f_run].
    cbn. rewrite app_nil_r. now repeat split.
Qed.

Lemma first_session k (es : list (@Event double)) : forall w : @World double,
  gap w = #20 -> height w = #512 ->
  let r := First.session perlin entropy (27 + k) es w in
  result r = Some tt /\ drawing (world_of r) = drawing w ++ First.captures es.
Proof.
  induction es as [|e es IH]; intros w Hg Hh.
  - cbn. now rewrite app_nil_r.
  - destruct (first_handle k e w Hg Hh) as (Hr & Hg' & Hh' & Hd).
    cbv zeta. cbn [First.session].
    assert (Hc : First.captures (e :: es) = First.captures [e] ++ First.captures es)
      by (unfold First.captures; cbn [flat_map]; now rewrite app_nil_r).
    rewrite Hc.
    destruct (IH _ Hg' Hh') as [IHr IHd].
    split.
    + erewrite bind_result by exact Hr. exact IHr.
    + rewrite bind_world with (a := tt) by exact Hr.
      rewrite IHd, Hd. now rewrite app_assoc.
Qed.

(** X11.  On doubles, with 27 turns or more per loop, a session of the
    first version ends whatever the events, and the stroke it leaves holds
    every point captured since the page loaded, in order: no press and no
    release drops a point, since nothing calls [resetLeftSide].  A frame is
    captured when the pointer is down at [mouseX <= 512], at any height. *)
Theorem first_version_never_drops_a_point (k : nat) (es : list (@Event double)) :
  let r := First.run_page perlin entropy (27 + k) es in
  result r = Some tt /\ drawing (world_of r) = First.captures es.
Proof.
  cbv zeta. unfold First.run_page, First.setup.
  set (w0 := set_canvas #1536 #512 (@First.initial double)).
  set (w1 := set_offsetR (entropy (randomCalls w0) * #1000) (next_random w0)).
  assert (E : First.setup perlin entropy (27 + k) (@First.initial double) =
              (Some tt, w1, calls (First.setup perlin entropy (27 + k) (@First.initial double)))).
  { unfold First.setup.
    erewrite bind_some; [|reflexivity|].
    2:{ erewrite bind_some; [|reflexivity|].
        2:{ erewrite bind_some; [|reflexivity|].
            2:{ apply (@first_dotGrid_ends k w0); reflexivity. }
            reflexivity. }
        reflexivity. }
    reflexivity. }
  destruct (@first_session k es w1 eq_refl eq_refl) as [Hr Hd].
  unfold First.setup in E. split.
  - erewrite bind_result; [exact Hr|]; now rewrite E.
  - rewrite bind_world with (a := tt); now rewrite E.
Qed.

End FirstOnDoubles.

(** ** The pen each shape is drawn with *)

Section PenDiscipline.
Context {N : Number}.
Variable perlin : num -> num -> num.
Variable entropy : nat -> num.

Lemma drawn_app (a b : list Call) : forall st,
  drawn st (a ++ b) = drawn st a ++ drawn (pen_after st a) b.
Proof.
  induction a as [|c a IH]; intros st; [reflexivity|].
  cbn [app drawn]. rewrite IH, app_assoc. reflexivity.
Qed.

Lemma styled_app (P Q R : Style -> Prop) (a b : list Call) :
  styled P a Q -> styled Q b R -> styled P (a ++ b) R.
Proof.
  intros Ha Hb st HP. destruct (Ha st HP) as [H1 H2]. destruct (Hb _ H2) as [H3 H4].
  rewrite drawn_app. split; [apply Forall_app; now split|].
  unfold pen_after in *. now rewrite fold_left_app.
Qed.

Lemma styled_weaken (P P' Q Q' : Style -> Prop) (o : list Call) :
  (forall st, P' st -> P st) -> (forall st, Q st -> Q' st) ->
  styled P o Q -> styled P' o Q'.
Proof. intros HP HQ H st Hst. destruct (H st (HP st Hst)). split; auto. Qed.

Lemma styled_nil (P : Style -> Prop) : styled P [] P.
Proof. intros st H. split; [constructor|exact H]. Qed.

(** What a closed set of runs holds of, it holds of a sequence and of a
    loop. *)
Lemma bind_trace {A B} (T : list Call -> Prop) (m : M A) (k : A -> M B) w :
  (forall a b, T a -> T b -> T (a ++ b)) ->
  T (calls (m w)) -> (forall a w', T (calls (k a w'))) -> T (calls (bind m k w)).
Proof.
  intros Happ Hm Hk. unfold bind. destruct (m w) as [[[a|] w1] o1]; [|exact Hm].
  specialize (Hk a w1). destruct (k a w1) as [[r w2] o2]. cbn in *. now apply Happ.
Qed.

Lemma for_lt_trace {S} (T : list Call -> Prop) (bound step : World -> num)
    (body : num -> S -> M S) :
  T [] -> (forall a b, T a -> T b -> T (a ++ b)) ->
  (forall x s w, T (calls (body x s w))) ->
  forall fuel v s w, T (calls (for_lt fuel bound step body v s w)).
Proof.
  intros Hnil Happ Hbody fuel. induction fuel as [|k IH]; intros v s w; [exact Hnil|].
  rewrite for_lt_turn. destruct (v <? bound w); [|exact Hnil].
  apply bind_trace; auto.
Qed.

Ltac pen := cbn; repeat (constructor; cbn; auto 8).

Lemma board_calls_styled : styled any_pen board_calls any_pen.
Proof. intros st _. split; [|exact I]. pen. Qed.

Lemma reset_styled :
  styled any_pen ([NoStroke; Fill #255; Rect #0 #0 #512 #512] ++ board_calls) any_pen.
Proof. intros st _. split; [|exact I]. pen. Qed.

Lemma trail_styled p : styled any_pen (trail p) any_pen.
Proof. intros st _. split; [|exact I]. pen. Qed.

Lemma stroke_calls_styled o sx sy pts : forall prev,
  styled any_pen (stroke_calls perlin o sx sy prev pts) any_pen.
Proof.
  induction pts as [|p pts IH]; intros prev; [apply styled_nil|].
  intros st _. split; [|exact I]. cbn [stroke_calls].
  destruct prev as [q|]; cbn.
  - constructor; [cbn; auto|]. now apply IH.
  - now apply IH.
Qed.

Lemma dots_styled g (o : list Call) :
  Forall (dot_call perlin g) o -> styled dot_pen o dot_pen.
Proof.
  intros H. induction H as [|c o Hc _ IH]; [apply styled_nil|].
  intros st Hst. destruct (IH st Hst) as [H1 H2].
  destruct c; try contradiction; cbn.
  - split; [|exact H2]. constructor; [exact Hst|exact H1].
  - now split.
Qed.

Lemma grid_styled g x y (o : list Call) :
  Forall (dot_call perlin g) o ->
  styled any_pen ([NoStroke; Fill #0; Fill #255; Rect x y #512 #512; Fill #0]
                  ++ Random #1000 :: o) no_outline.
Proof.
  intros Ho.
  change (?a ++ Random #1000 :: o) with ((a ++ [Random #1000]) ++ o).
  apply styled_app with (Q := dot_pen).
  - intros st _. split; [pen|now split].
  - apply styled_weaken with (P := dot_pen) (Q := dot_pen); auto.
    + now intros st [_ H].
    + now apply dots_styled with (g := g).
Qed.

Lemma f_styled w : styled no_outline (calls (f perlin w)) any_pen.
Proof.
  rewrite f_run. cbn [calls snd]. apply styled_app with (Q := any_pen).
  - intros st Hst. split; [|exact I]. unfold no_outline in Hst. pen.
  - apply stroke_calls_styled.
Qed.

(** [translateAToB] clears board B with the pen it is called with, and sets
    the pen before each segment. *)
Lemma translateAToB_styled fuel w :
  styled no_outline (calls (translateAToB perlin fuel w)) any_pen.
Proof.
  unfold translateAToB, fill, rect. rewrite !bind_call. cbn [calls snd].
  rewrite bind_gets.
  set (T := fun o : list Call => styled any_pen o any_pen).
  assert (Happ : forall a b, T a -> T b -> T (a ++ b))
    by (intros a b; apply styled_app).
  match goal with
  | |- styled _ (_ :: _ :: calls (bind ?loop _ _)) _ =>
      assert (H : T (calls (bind loop (fun _ => ret tt) w)))
  end.
  { apply bind_trace; [exact Happ| |intros; apply styled_nil].
    apply for_lt_trace; [apply styled_nil|exact Happ|].
    intros x s w'. rewrite bind_gets.
    apply for_lt_trace; [apply styled_nil|exact Happ|].
    intros y prev w''. rewrite translate_turn_run. cbn [calls snd].
    intros st _. split; [|exact I]. unfold translate_turn.
    destruct (to_boolean (fst prev) && to_boolean (snd prev)); pen. }
  change (?a :: ?b :: ?l) with ([a; b] ++ l).
  apply styled_app with (Q := any_pen); [|exact H].
  intros st Hst. split; [|exact I]. unfold no_outline in Hst. pen.
Qed.

Lemma mouseReleased_styled fuel w :
  styled any_pen (calls (mouseReleased perlin entropy fuel w)) any_pen.
Proof.
  unfold mouseReleased.
  destruct (dotGridR_any perlin entropy fuel w) as (r1 & o1 & H1 & Ho1).
  set (w1 := set_offsetR (entropy (randomCalls w) * #1000) (next_random w)) in *.
  assert (S1 := @grid_styled (gap w) #512 #0 o1 Ho1). fold clear_R in S1.
  destruct r1 as [[]|].
  2:{ erewrite bind_none; [|exact H1]. cbn [calls snd].
      revert S1. apply styled_weaken; auto. now intros. }
  destruct (dotGridA_any perlin entropy fuel w1) as (r2 & o2 & H2 & Ho2).
  set (w2 := set_offsetA (entropy (randomCalls w1) * #1000) (next_random w1)) in *.
  assert (S2 := @grid_styled (gap w1) #512 #512 o2 Ho2). fold clear_A in S2.
  assert (Sf := f_styled w1). rewrite f_run in Sf. cbn [calls snd] in Sf.
  destruct r2 as [[]|].
  - assert (S3 := translateAToB_styled fuel w2).
    destruct (translateAToB perlin fuel w2) as [[r3 w3] o3] eqn:H3. cbn [calls snd] in S3.
    erewrite bind_some; [|exact H1|].
    2:{ eapply bind_some; [apply (f_run perlin w1)|].
        eapply bind_some; [exact H2|exact H3]. }
    cbn [calls snd].
    apply styled_app with (Q := no_outline); [exact S1|].
    apply styled_app with (Q := any_pen); [exact Sf|].
    apply styled_app with (Q := no_outline); [exact S2|exact S3].
  - erewrite bind_some; [|exact H1|].
    2:{ eapply bind_some; [apply (f_run perlin w1)|]. apply bind_none. exact H2. }
    cbn [calls snd].
    apply styled_app with (Q := no_outline); [exact S1|].
    apply styled_app with (Q := any_pen); [exact Sf|].
    revert S2. apply styled_weaken; auto. now intros.
Qed.

Lemma handle_styled fuel e w :
  styled any_pen (calls (handle perlin entropy fuel e w)) any_pen.
Proof.
  destruct e as [p|t p|]; cbn [handle].
  - rewrite draw_captures. cbn [calls snd].
    destruct (captured p); [apply trail_styled|apply styled_nil].
  - rewrite mousePressed_clicks. cbn [calls snd].
    destruct (double_click _ _ _ _); [apply reset_styled|apply styled_nil].
  - apply mouseReleased_styled.
Qed.

Lemma session_styled fuel es : forall w,
  styled any_pen (calls (session perlin entropy fuel es w)) any_pen.
Proof.
  induction es as [|e es IH]; intros w; [apply styled_nil|].
  cbn [session].
  apply (@bind_trace _ _ (fun o => styled any_pen o any_pen)); auto.
  - intros a b. apply styled_app.
  - apply handle_styled.
Qed.

Lemma setup_styled fuel w :
  styled any_pen (calls (setup perlin entropy fuel w)) any_pen.
Proof.
  unfold setup.
  set (T := fun o : list Call => styled any_pen o any_pen).
  assert (Happ : forall a b, T a -> T b -> T (a ++ b))
    by (intros a b; apply styled_app).
  assert (Hgrid : forall g x y o, Forall (dot_call perlin g) o ->
            T ([NoStroke; Fill #0; Fill #255; Rect x y #512 #512; Fill #0]
               ++ Random #1000 :: o)).
  { intros g x y o Ho. generalize (@grid_styled g x y o Ho).
    apply styled_weaken; auto. now intros. }
  change (T (calls ((createCanvas #1024 #1536 ;; background #255 ;; drawBoard ;;
                     dotGridR perlin entropy fuel ;; dotGridA perlin entropy fuel) w))).
  apply bind_trace; [exact Happ|intros st _; split; [pen|exact I]|]. intros _ w1.
  apply bind_trace; [exact Happ|intros st _; split; [pen|exact I]|]. intros _ w2.
  apply bind_trace; [exact Happ|rewrite drawBoard_run; apply board_calls_styled|].
  intros _ w3.
  apply bind_trace; [exact Happ| |].
  - destruct (dotGridR_any perlin entropy fuel w3) as (r & o & -> & Ho).
    now apply Hgrid with (g := gap w3).
  - intros _ w4. destruct (dotGridA_any perlin entropy fuel w4) as (r & o & -> & Ho).
    now apply Hgrid with (g := gap w4).
Qed.

(** X12.  Whatever the events, the budget and the pen p5 starts with, every
    shape the page draws is drawn as its kind is meant: each dot filled
    black without outline, each segment (of the stroke, of board P and of
    board B) black and 10 wide, each label black, and each rectangle either
    a hollow border 2 wide, a white label box with such a border, or a white
    clearing without outline.  Every operation sets the pen it needs before
    it draws, but for the clearings of [f] and [translateAToB], which get
    theirs from the grid drawn just before them. *)
Theorem every_shape_is_drawn_in_style (fuel : nat) (es : list Event) (st : Style) :
  Forall in_style (drawn st (calls (run_page perlin entropy fuel es))) /\
  forall w, Forall in_style (drawn st (calls (session perlin entropy fuel es w))).
Proof.
  split.
  - unfold run_page.
    assert (H : styled any_pen
                  (calls ((setup perlin entropy fuel ;; session perlin entropy fuel es) initial))
                  any_pen).
    { apply (@bind_trace _ _ (fun o => styled any_pen o any_pen)).
      - intros a b. apply styled_app.
      - apply setup_styled.
      - intros _ w. apply session_styled. }
    now apply H.
  - intros w. now apply (session_styled fuel es w).
Qed.

End PenDiscipline.

(** ** The further properties on the page of the examples *)

(** X3 on the page of the examples: the two points of the stroke, then one
    from each drag. *)
Lemma strokes_accumulate_across_releases_witness :
  tuned (@studio double) /\
  existsb is_press (@two_drags double) = false /\
  result (session bump harmonic 27 two_drags (@studio double)) = Some tt /\
  drawing (world_of (session bump harmonic 27 two_drags (@studio double))) =
    [mkPoint #100 #100; mkPoint #110 #100; mkPoint #120 #110; mkPoint #130 #120].
Proof.
  assert (Hw : tuned (@studio double)) by (split; reflexivity).
  destruct (@strokes_accumulate_across_releases bump harmonic 0 two_drags studio
              Hw eq_refl) as [Hr Hd].
  cbn [Nat.add] in *.
  split; [exact Hw|]. split; [reflexivity|]. split; [exact Hr|].
  rewrite Hd. vm_compute. reflexivity.
Defined.

(** X4 on the page of the examples: a press far off board L at 1000 ms, a
    drag, and a press on board L at 1200 ms, which empties the stroke. *)
Lemma second_press_decides_the_reset_witness :
  tuned (@studio double) /\
  existsb is_press (@two_drags double) = false /\
  double_click (doubleClickThreshold (@studio double)) #1000 #1200 (resting #50 #50) = true /\
  drawing (world_of (session bump harmonic 27
                       (Press #1000 (resting #900 #900)
                        :: two_drags ++ [Press #1200 (resting #50 #50)])
                       (@studio double))) = [].
Proof.
  assert (Hw : tuned (@studio double)) by (split; reflexivity).
  destruct (@second_press_decides_the_reset bump harmonic 0 two_drags
              #1000 #1200 (resting #900 #900) (resting #50 #50) studio Hw eq_refl)
    as (_ & _ & Hd).
  cbn [Nat.add] in *.
  assert (Hc : double_click (doubleClickThreshold (@studio double)) #1000 #1200
                 (resting #50 #50) = true) by (vm_compute; reflexivity).
  split; [exact Hw|]. split; [reflexivity|]. split; [exact Hc|].
  rewrite Hd, Hc. reflexivity.
Defined.


